(** * duckdb_batch_reader.go: a row cursor drained into columnar batches

    A shallow embedding of [src/duckdb_batch_reader.go] (package [flight]):
    the mapping from declared column types to Arrow types, the allocation
    of the per-column scan destinations, the pull loop of [Next] and the
    reference-counted teardown of [Release].

    Go values are modelled as follows.  Strings are byte strings
    ([string]); fixed-width integers are [Z]; a pointer that the code
    compares with [nil] is an [option]; a [panic] is the [Panic] branch of
    [outcome].  Calls into objects owned by other packages (closing the
    cursor, releasing a builder or a record) are recorded in a trace. *)

From Stdlib Require Import String Ascii List ZArith Lia Bool Arith.
From Stdlib Require Import DecimalString DecimalNat.
Import ListNotations.

Set Warnings "-register-all".

Open Scope string_scope.

(** ** Panics *)

Inductive outcome (A : Type) : Type :=
| Ok (a : A)
| Panic (msg : string).

Arguments Ok {A} a.
Arguments Panic {A} msg.

Definition bind {A B : Type} (m : outcome A) (k : A -> outcome B) : outcome B :=
  match m with
  | Ok a => k a
  | Panic msg => Panic msg
  end.

Notation "x <- m ;; k" := (bind m (fun x => k))
  (at level 61, m at next level, right associativity).

(** ** Package [strings], on byte strings

    [ToLower] folds the ASCII capitals and leaves every other byte as it
    is, which is what Go does on ASCII input; on other input Go lowers
    the letters of every script, and statements over arbitrary names are
    restricted to ASCII ones. *)

Module strings.

Definition isUpper (c : ascii) : bool :=
  (65 <=? nat_of_ascii c)%nat && (nat_of_ascii c <=? 90)%nat.

Definition isLower (c : ascii) : bool :=
  (97 <=? nat_of_ascii c)%nat && (nat_of_ascii c <=? 122)%nat.

Definition lowerByte (c : ascii) : ascii :=
  if isUpper c then ascii_of_nat (nat_of_ascii c + 32) else c.

Definition upperByte (c : ascii) : ascii :=
  if isLower c then ascii_of_nat (nat_of_ascii c - 32) else c.

Fixpoint ToLower (s : string) : string :=
  match s with
  | EmptyString => EmptyString
  | String c s' => String (lowerByte c) (ToLower s')
  end.

Definition HasPrefix (s pre : string) : bool := String.prefix pre s.

Fixpoint isASCII (s : string) : bool :=
  match s with
  | EmptyString => true
  | String c s' => (nat_of_ascii c <? 128)%nat && isASCII s'
  end.

(** [s] spells [name] with each letter in either case. *)
Fixpoint isCaseVariant (name s : string) : bool :=
  match name, s with
  | EmptyString, EmptyString => true
  | String c name', String d s' =>
      (Ascii.eqb d c || (isLower c && Ascii.eqb d (upperByte c)))
      && isCaseVariant name' s'
  | _, _ => false
  end.

End strings.

(** ** Package [reflect]: the kinds of a scan type *)

Module reflect.

Inductive Kind : Type :=
| Invalid | Bool | Int | Int8 | Int16 | Int32 | Int64
| Uint | Uint8 | Uint16 | Uint32 | Uint64 | Uintptr
| Float32 | Float64 | Complex64 | Complex128
| Array | Chan | Func | Interface | Map | Pointer | Slice
| String | Struct | UnsafePointer.

End reflect.

(** ** Package [arrow]: data types, fields, schemas *)

Module arrow.

Inductive TimeUnit : Type := Second | Millisecond | Microsecond | Nanosecond.

Inductive TypeID : Type :=
| NULL | BOOL | UINT8 | INT8 | UINT16 | INT16 | UINT32 | INT32
| UINT64 | INT64 | FLOAT32 | FLOAT64 | STRING | BINARY
| DATE32 | TIME32 | TIMESTAMP | SPARSE_UNION | DENSE_UNION.

Scheme Equality for TypeID.

Inductive DataType : Type :=
| NullType
| Int8 | Int16 | Int32 | Int64
| Uint8
| Float32 | Float64
| String | Binary
| Date32
| Time32 (u : TimeUnit)
| Timestamp (u : TimeUnit)
| Boolean
| DenseUnionOf (children : list (string * DataType * bool)) (codes : list Z)
| SparseUnionOf (children : list (string * DataType * bool)) (codes : list Z).

Definition Time32s : DataType := Time32 Second.
Definition Timestamp_us : DataType := Timestamp Microsecond.

Definition ID (t : DataType) : TypeID :=
  match t with
  | NullType => NULL
  | Int8 => INT8
  | Int16 => INT16
  | Int32 => INT32
  | Int64 => INT64
  | Uint8 => UINT8
  | Float32 => FLOAT32
  | Float64 => FLOAT64
  | String => STRING
  | Binary => BINARY
  | Date32 => DATE32
  | Time32 _ => TIME32
  | Timestamp _ => TIMESTAMP
  | Boolean => BOOL
  | DenseUnionOf _ _ => DENSE_UNION
  | SparseUnionOf _ _ => SPARSE_UNION
  end.

Definition Metadata : Type := list (string * string).

Record Field : Type := mkField {
  Name : string;
  Typ : DataType;
  Nullable : bool;
  Metadata_ : Metadata
}.

Definition Schema : Type := list Field.

End arrow.

(** ** Package [database/sql]: column metadata *)

Module sql.

Record ColumnType : Type := mkColumnType {
  Name : string;
  DatabaseTypeName : string;
  (** [Nullable()] returns the flag and whether the driver knows it. *)
  Nullable : bool * bool;
  (** [ScanType()] is [nil] or a type, of which only the kind is read. *)
  ScanType : option reflect.Kind
}.

End sql.

(** ** The type mapping *)

Definition oneOf (s : string) (cases : list string) : bool :=
  existsb (String.eqb s) cases.

Definition getArrowTypeFromString (dbtype : string) : outcome arrow.DataType :=
  let dbtype := strings.ToLower dbtype in
  if String.eqb dbtype "" then Ok arrow.NullType
  else if strings.HasPrefix dbtype "varchar" then Ok arrow.String
  else if oneOf dbtype ["tinyint"] then Ok arrow.Int8
  else if oneOf dbtype ["smallint"] then Ok arrow.Int16
  else if oneOf dbtype ["integer"; "int"; "int32"] then Ok arrow.Int32
  else if oneOf dbtype ["bigint"; "int64"] then Ok arrow.Int64
  else if oneOf dbtype ["float"] then Ok arrow.Float32
  else if oneOf dbtype ["double"] then Ok arrow.Float64
  else if oneOf dbtype ["blob"] then Ok arrow.Binary
  else if oneOf dbtype ["text"; "varchar"; "string"] then Ok arrow.String
  else if oneOf dbtype ["date"] then Ok arrow.Date32
  else if oneOf dbtype ["time"] then Ok arrow.Time32s
  else if oneOf dbtype ["timestamp"] then Ok arrow.Timestamp_us
  else if oneOf dbtype ["boolean"] then Ok arrow.Boolean
  else Panic ("invalid DuckDB type: " ++ dbtype).

Definition duckDBDenseUnion : arrow.DataType :=
  arrow.DenseUnionOf
    [ ("int", arrow.Int64, true);
      ("float", arrow.Float64, true);
      ("string", arrow.String, true) ]
    [0%Z; 1%Z; 2%Z].

Definition getArrowType (c : sql.ColumnType) : outcome arrow.DataType :=
  let dbtype := strings.ToLower (sql.DatabaseTypeName c) in
  let fallthrough := getArrowTypeFromString dbtype in
  if String.eqb dbtype "" then
    match sql.ScanType c with
    | None => Ok duckDBDenseUnion
    | Some k =>
        match k with
        | reflect.Int8 | reflect.Uint8 => Ok arrow.Int8
        | reflect.Int16 | reflect.Uint16 => Ok arrow.Int16
        | reflect.Int32 | reflect.Uint32 => Ok arrow.Int32
        | reflect.Int | reflect.Int64 | reflect.Uint64 => Ok arrow.Int64
        | reflect.Float32 => Ok arrow.Float32
        | reflect.Float64 => Ok arrow.Float64
        | reflect.String => Ok arrow.String
        | reflect.Bool => Ok arrow.Boolean
        | _ => fallthrough
        end
    end
  else fallthrough.

Definition maxBatchSize : nat := 1024.

(** ** Package [codes] and the errors the reader records *)

Module codes.

Inductive Code : Type := OK | Canceled | Unknown | Internal.

Definition name (c : Code) : string :=
  match c with
  | OK => "OK"
  | Canceled => "Canceled"
  | Unknown => "Unknown"
  | Internal => "Internal"
  end.

End codes.

(** An [error] is either an error of the driver, known by its message, or
    the error of a gRPC status with its code, message and details. *)
Inductive error : Type :=
| driverError (msg : string)
| statusError (c : codes.Code) (msg : string) (details : list string).

Definition Error (e : error) : string :=
  match e with
  | driverError msg => msg
  | statusError c msg _ =>
      "rpc error: code = " ++ codes.name c ++ " desc = " ++ msg
  end.

(** ** Scan destinations

    [Null T] is the shape shared by [sql.NullByte], [sql.NullInt32],
    [sql.NullInt64], [sql.NullFloat64] and [sql.NullString]: a value and
    its validity flag.  A [float64] or [float32] is its bit pattern. *)

Record Null (T : Type) : Type := mkNull { V : T; Valid : bool }.

Arguments mkNull {T} V Valid.
Arguments V {T} n.
Arguments Valid {T} n.

Definition bytes : Type := list Byte.byte.

(** What a scan may store behind an [*interface{}]. *)
Inductive AnyValue : Type :=
| AnyNil
| AnyInt64 (v : Z)
| AnyFloat64 (v : Z)
| AnyBool (v : bool)
| AnyBytes (v : bytes)
| AnyString (v : string).

(** The dynamic types an entry of [rowdest] takes, each with the value it
    points to.  An entry that was never assigned is [None].  For
    [*[]byte], which [Next] compares with [nil], the pointer itself is an
    [option], and so is the slice behind it ([None] is the nil slice). *)
Inductive RowDest : Type :=
| PAny (v : AnyValue)
| PUint8 (v : Z)
| PNullByte (n : Null Z)
| PInt64 (v : Z)
| PNullInt64 (n : Null Z)
| PInt32 (v : Z)
| PNullInt32 (n : Null Z)
| PFloat64 (v : Z)
| PNullFloat64 (n : Null Z)
| PBytes (target : option (option bytes))
| PString (v : string)
| PNullString (n : Null string).

(** The switch on [f.Type.ID()], which both constructors contain. *)
Definition newRowDest (id : arrow.TypeID) (nullable : bool) : option RowDest :=
  match id with
  | arrow.DENSE_UNION | arrow.SPARSE_UNION => Some (PAny AnyNil)
  | arrow.UINT8 | arrow.INT8 =>
      if nullable then Some (PNullByte (mkNull 0%Z false)) else Some (PUint8 0%Z)
  | arrow.INT32 =>
      if nullable then Some (PNullInt32 (mkNull 0%Z false)) else Some (PInt32 0%Z)
  | arrow.INT64 =>
      if nullable then Some (PNullInt64 (mkNull 0%Z false)) else Some (PInt64 0%Z)
  | arrow.FLOAT32 | arrow.FLOAT64 =>
      if nullable then Some (PNullFloat64 (mkNull 0%Z false)) else Some (PFloat64 0%Z)
  | arrow.BINARY => Some (PBytes (Some None))
  | arrow.STRING =>
      if nullable then Some (PNullString (mkNull "" false)) else Some (PString "")
  | _ => None
  end.

(** ** Package [array]: column builders and records *)

Inductive Cell : Type :=
| CNull
| CUint8 (v : Z)
| CInt32 (v : Z)
| CInt64 (v : Z)
| CFloat32 (v : Z)
| CFloat64 (v : Z)
| CBinary (v : bytes)
| CString (v : string).

(** A builder of one column: the type it was made for, which decides what
    a type assertion on it yields, and the cells appended so far. *)
Record FieldBuilder : Type := mkFieldBuilder {
  btype : arrow.DataType;
  cells : list Cell
}.

Definition append (fb : FieldBuilder) (c : Cell) : FieldBuilder :=
  mkFieldBuilder (btype fb) (cells fb ++ [c]).

Definition AppendNull (fb : FieldBuilder) : FieldBuilder := append fb CNull.

Definition RecordBuilder : Type := list FieldBuilder.

Definition NewRecordBuilder (schema : arrow.Schema) : RecordBuilder :=
  map (fun f => mkFieldBuilder (arrow.Typ f) []) schema.

Record Record_ : Type := mkRecord {
  columns : list (list Cell);
  NumRows : nat
}.

(** [NewRecord] takes the cells of every builder, in order, panics when a
    column differs in length from the one before it, and leaves the
    builders empty. *)
Fixpoint checkRows (i : nat) (rows : nat) (b : RecordBuilder) : outcome nat :=
  match b with
  | [] => Ok rows
  | fb :: b' =>
      let irow := length (cells fb) in
      if (0 <? i)%nat && negb (irow =? rows)%nat
      then Panic "arrow/array: field has wrong number of rows"
      else checkRows (S i) irow b'
  end.

Definition NewRecord (b : RecordBuilder) : outcome (Record_ * RecordBuilder) :=
  rows <- checkRows 0 0 b ;;
  Ok (mkRecord (map cells b) rows,
      map (fun fb => mkFieldBuilder (btype fb) []) b).

(** ** The cursor

    A row of the cursor is what scanning it does: given the values the
    destinations hold, the values they hold afterwards and the error of
    [Scan], if any.  [rows.Next()] takes the first pending row. *)

Definition Row : Type :=
  list (option RowDest) -> list (option RowDest) * option error.

Record Rows : Type := mkRows {
  ColumnTypes : error + list sql.ColumnType;
  pending : list Row
}.

(** ** The reader *)

Inductive Event : Type :=
| RowsClose
| BuilderRelease
| RecordRelease (rec : Record_).

Record SqlBatchReader : Type := mkReader {
  refCount : Z;
  schema : option arrow.Schema;
  rows : option Rows;
  record : option Record_;
  bldr : option RecordBuilder;
  err : option error;
  rowdest : list (option RowDest)
}.

(** The reader together with the calls it has made on the cursor, the
    builder and the records. *)
Record World : Type := mkWorld {
  rdr : SqlBatchReader;
  trace : list Event
}.

(** [atomic.AddInt64] wraps around in 64 bits, two's complement. *)
Definition wrap64 (z : Z) : Z := ((z + 2 ^ 63) mod 2 ^ 64 - 2 ^ 63)%Z.

Definition replaceAt {A : Type} (i : nat) (x : A) (l : list A) : list A :=
  firstn i l ++ match skipn i l with [] => [] | _ :: t => x :: t end.

Inductive LoopExit : Type :=
| ScanFailed (rows : nat) (e : error)
| Drained (rows : nat).

Inductive NewResult : Type :=
| Constructed (w : World)
| Failed (e : error) (tr : list Event).

(** The calls a holder of the reader can make. *)
Inductive Call : Type := CallNext | CallRetain | CallRelease.

Section Reader.

(** The method [String] of an [arrow.Schema]. *)
Variable Schema_String : arrow.Schema -> string.

(** Whether [anypb.New] can pack a [StringValue] holding this text. *)
Variable anypb_New : string -> bool.

(** The conversion [float32(x)] of a [float64], on bit patterns. *)
Variable float32_of_float64 : Z -> Z.

(** [getColumnMetadata(bldr, getSqlTypeFromTypeName(name), "")]: both
    functions are declared in another file of the package. *)
Variable getColumnMetadata : string -> arrow.Metadata.

(** The type assertion of [fb] to one builder type, which panics on any
    other builder. *)
Definition assertBuilder (id : arrow.TypeID) (fb : FieldBuilder) : outcome FieldBuilder :=
  if arrow.TypeID_beq (arrow.ID (btype fb)) id then Ok fb
  else Panic "interface conversion: array.Builder is not of the asserted type".

(** The bytes that [BinaryBuilder.Append] takes from a slice: none from
    the nil slice, which it appends as a value of length zero. *)
Definition sliceBytes (s : option bytes) : bytes :=
  match s with
  | None => []
  | Some l => l
  end.

(** The type switch on one destination, [switch v := v.(type)]. *)
Definition appendValue (fb : FieldBuilder) (v : option RowDest) : outcome FieldBuilder :=
  match v with
  | Some (PUint8 x) =>
      b <- assertBuilder arrow.UINT8 fb ;; Ok (append b (CUint8 x))
  | Some (PNullByte n) =>
      if negb (Valid n) then Ok (AppendNull fb)
      else b <- assertBuilder arrow.UINT8 fb ;; Ok (append b (CUint8 (V n)))
  | Some (PInt64 x) =>
      b <- assertBuilder arrow.INT64 fb ;; Ok (append b (CInt64 x))
  | Some (PNullInt64 n) =>
      if negb (Valid n) then Ok (AppendNull fb)
      else b <- assertBuilder arrow.INT64 fb ;; Ok (append b (CInt64 (V n)))
  | Some (PInt32 x) =>
      b <- assertBuilder arrow.INT32 fb ;; Ok (append b (CInt32 x))
  | Some (PNullInt32 n) =>
      if negb (Valid n) then Ok (AppendNull fb)
      else b <- assertBuilder arrow.INT32 fb ;; Ok (append b (CInt32 (V n)))
  | Some (PFloat64 x) =>
      match arrow.ID (btype fb) with
      | arrow.FLOAT64 => Ok (append fb (CFloat64 x))
      | arrow.FLOAT32 => Ok (append fb (CFloat32 (float32_of_float64 x)))
      | _ => Ok fb
      end
  | Some (PNullFloat64 n) =>
      if negb (Valid n) then Ok (AppendNull fb)
      else
        match arrow.ID (btype fb) with
        | arrow.FLOAT64 => Ok (append fb (CFloat64 (V n)))
        | arrow.FLOAT32 => Ok (append fb (CFloat32 (float32_of_float64 (V n))))
        | _ => Ok fb
        end
  | Some (PBytes p) =>
      match p with
      | None => Ok (AppendNull fb)
      | Some s =>
          b <- assertBuilder arrow.BINARY fb ;; Ok (append b (CBinary (sliceBytes s)))
      end
  | Some (PString x) =>
      b <- assertBuilder arrow.STRING fb ;; Ok (append b (CString x))
  | Some (PNullString n) =>
      if negb (Valid n) then Ok (AppendNull fb)
      else b <- assertBuilder arrow.STRING fb ;; Ok (append b (CString (V n)))
  | Some (PAny _) => Ok fb
  | None => Ok fb
  end.

(** [r.bldr.Field(i)] indexes the slice of field builders. *)
Definition Field (b : RecordBuilder) (i : nat) : outcome FieldBuilder :=
  match nth_error b i with
  | Some fb => Ok fb
  | None => Panic "index out of range"
  end.

(** [for i, v := range r.rowdest { fb := r.bldr.Field(i); ... }] *)
Fixpoint appendRow (i : nat) (dest : list (option RowDest)) (b : RecordBuilder)
  : outcome RecordBuilder :=
  match dest with
  | [] => Ok b
  | v :: dest' =>
      fb <- Field b i ;;
      fb' <- appendValue fb v ;;
      appendRow (S i) dest' (replaceAt i fb' b)
  end.

(** The same loop on [r.bldr], which is dereferenced once for every
    destination. *)
Definition appendRowTo (dest : list (option RowDest)) (b : option RecordBuilder)
  : outcome (option RecordBuilder) :=
  match b with
  | Some fbs => fbs' <- appendRow 0 dest fbs ;; Ok (Some fbs')
  | None =>
      match dest with
      | [] => Ok None
      | _ :: _ => Panic "nil pointer dereference"
      end
  end.

(** [for rows < maxBatchSize && r.rows.Next() { ... rows++ }], with the
    pending rows of the cursor, the destinations and the builder as the
    loop state. *)
Fixpoint scanLoop (cur : list Row) (n : nat) (dest : list (option RowDest))
    (b : option RecordBuilder)
  : outcome (LoopExit * (list Row * list (option RowDest) * option RecordBuilder)) :=
  if (n <? maxBatchSize)%nat then
    match cur with
    | [] => Ok (Drained n, ([], dest, b))
    | row :: rest =>
        let (dest', e) := row dest in
        match e with
        | Some scanErr => Ok (ScanFailed n scanErr, (rest, dest', b))
        | None =>
            b' <- appendRowTo dest' b ;;
            scanLoop rest (S n) dest' b'
        end
    end
  else Ok (Drained n, (cur, dest, b)).

(** [status.New(codes.Unknown, err.Error()).WithDetails(&detail)], then
    [st.Err()]; the scan error itself when the detail cannot be attached. *)
Definition WithDetails (c : codes.Code) (msg detail : string) : option error :=
  match c with
  | codes.OK => None
  | _ => if anypb_New detail then Some (statusError c msg [detail]) else None
  end.

(** The error that [Next] records for the scan error [e]. *)
Definition scanError (e : error) (s : arrow.Schema) : error :=
  match WithDetails codes.Unknown (Error e) (Schema_String s) with
  | Some st => st
  | None => e
  end.

(** [atomic.AddInt64(&r.refCount, 1)] *)
Definition Retain (w : World) : World :=
  let r := rdr w in
  mkWorld
    (mkReader (wrap64 (refCount r + 1)) (schema r) (rows r) (record r)
       (bldr r) (err r) (rowdest r))
    (trace w).

(** When the decremented count is zero: [r.rows.Close()], which
    dereferences [r.rows]; the cursor, the schema and the destinations are
    set to nil; [r.bldr.Release()], which dereferences [r.bldr]; the
    builder is set to nil; the record, if any, is released and set to
    nil.  [r.err] is left as it is. *)
Definition Release (w : World) : outcome World :=
  let r := rdr w in
  let c := wrap64 (refCount r - 1) in
  if (c =? 0)%Z then
    match rows r with
    | None => Panic "nil pointer dereference"
    | Some _ =>
        match bldr r with
        | None => Panic "nil pointer dereference"
        | Some _ =>
            Ok (mkWorld
                  (mkReader c None None None None (err r) [])
                  (trace w ++ [RowsClose; BuilderRelease]
                     ++ match record r with
                        | Some rec => [RecordRelease rec]
                        | None => []
                        end)%list)
        end
    end
  else
    Ok (mkWorld
          (mkReader c (schema r) (rows r) (record r) (bldr r) (err r) (rowdest r))
          (trace w)).

Definition Schema (w : World) : option arrow.Schema := schema (rdr w).

Definition Record' (w : World) : option Record_ := record (rdr w).

Definition Err (w : World) : option error := err (rdr w).

(** A record left by the call before is released first.  The loop starts
    with [rows = 0], below the cap, so [r.rows.Next()] is always called
    and a nil [r.rows] panics.  On a scan error the error is recorded and
    the call returns false at once: [r.record] stays nil and [r.bldr] is
    left as the loop left it.  Otherwise [r.bldr.NewRecord()] becomes the
    record and the call returns [rows > 0]. *)
Definition Next (w : World) : outcome (bool * World) :=
  let r := rdr w in
  let tr :=
    match record r with
    | Some rec => (trace w ++ [RecordRelease rec])%list
    | None => trace w
    end in
  match rows r with
  | None => Panic "nil pointer dereference"
  | Some cur =>
      st <- scanLoop (pending cur) 0 (rowdest r) (bldr r) ;;
      let '(exit, (rest, dest, b)) := st in
      let cur' := mkRows (ColumnTypes cur) rest in
      match exit with
      | ScanFailed _ e =>
          match schema r with
          | None => Panic "nil pointer dereference"
          | Some s =>
              Ok (false,
                  mkWorld
                    (mkReader (refCount r) (schema r) (Some cur') None b
                       (Some (scanError e s)) dest)
                    tr)
          end
      | Drained n =>
          match b with
          | None => Panic "nil pointer dereference"
          | Some fbs =>
              res <- NewRecord fbs ;;
              let (rec, fbs') := res in
              Ok ((0 <? n)%nat,
                  mkWorld
                    (mkReader (refCount r) (schema r) (Some cur') (Some rec)
                       (Some fbs') (err r) dest)
                    tr)
          end
      end
  end.

(** [rowdest[i]] for every field, by the switch of the constructors. *)
Definition allocate (schema : arrow.Schema) : list (option RowDest) :=
  map (fun f => newRowDest (arrow.ID (arrow.Typ f)) (arrow.Nullable f)) schema.

Definition NewDuckDBBatchReaderWithSchema (schema : arrow.Schema) (rows : Rows) : World :=
  mkWorld
    (mkReader 1 (Some schema) (Some rows) None (Some (NewRecordBuilder schema))
       None (allocate schema))
    [].

(** [strconv.Itoa], on the indices of columns. *)
Definition Itoa (i : nat) : string := NilEmpty.string_of_uint (Nat.to_uint i).

(** The loop over [cols] that fills [fields]; [rowdest] is filled from
    the fields by the same switch as above. *)
Fixpoint columnFields (i : nat) (cols : list sql.ColumnType) : outcome arrow.Schema :=
  match cols with
  | [] => Ok []
  | c :: cols' =>
      let name :=
        if String.eqb (sql.Name c) "?" then sql.Name c ++ ":" ++ Itoa i
        else sql.Name c in
      t <- getArrowType c ;;
      let f := arrow.mkField name t (fst (sql.Nullable c))
                 (getColumnMetadata (sql.DatabaseTypeName c)) in
      fs <- columnFields (S i) cols' ;;
      Ok (f :: fs)
  end.

(** When [rows.ColumnTypes()] fails the cursor is closed and the error
    returned; otherwise the fields are built, which panics on a type name
    that [getArrowType] does not know, and the reader is assembled as in
    [NewDuckDBBatchReaderWithSchema]. *)
Definition NewDuckDBBatchReader (rows : Rows) : outcome NewResult :=
  match ColumnTypes rows with
  | inl e => Ok (Failed e [RowsClose])
  | inr cols =>
      fields <- columnFields 0 cols ;;
      Ok (Constructed
            (mkWorld
               (mkReader 1 (Some fields) (Some rows) None
                  (Some (NewRecordBuilder fields)) None (allocate fields))
               []))
  end.

(** A sequence of calls, which stops at the first panic. *)
Fixpoint run (calls : list Call) (w : World) : outcome World :=
  match calls with
  | [] => Ok w
  | CallNext :: calls' => r <- Next w ;; run calls' (snd r)
  | CallRetain :: calls' => run calls' (Retain w)
  | CallRelease :: calls' => w' <- Release w ;; run calls' w'
  end.

End Reader.

(** * Definitions for the statements *)

(** ** Tables of the type mapping *)

(** The mapping table as the specification lists it. *)
Definition documentedTable : list (string * arrow.DataType) :=
  [ ("tinyint", arrow.Int8);
    ("smallint", arrow.Int16);
    ("integer", arrow.Int32); ("int", arrow.Int32); ("int32", arrow.Int32);
    ("bigint", arrow.Int64); ("int64", arrow.Int64);
    ("float", arrow.Float32);
    ("double", arrow.Float64);
    ("blob", arrow.Binary);
    ("text", arrow.String); ("varchar", arrow.String); ("string", arrow.String);
    ("date", arrow.Date32);
    ("time", arrow.Time32 arrow.Second);
    ("timestamp", arrow.Timestamp arrow.Microsecond);
    ("boolean", arrow.Boolean) ].

Definition tableNames : list string := map fst documentedTable.

(** The native kinds that [getArrowType] maps for an undeclared type. *)
Definition nativeKindTable : list (reflect.Kind * arrow.DataType) :=
  [ (reflect.Int8, arrow.Int8); (reflect.Uint8, arrow.Int8);
    (reflect.Int16, arrow.Int16); (reflect.Uint16, arrow.Int16);
    (reflect.Int32, arrow.Int32); (reflect.Uint32, arrow.Int32);
    (reflect.Int, arrow.Int64); (reflect.Int64, arrow.Int64);
    (reflect.Uint64, arrow.Int64);
    (reflect.Float32, arrow.Float32);
    (reflect.Float64, arrow.Float64);
    (reflect.String, arrow.String);
    (reflect.Bool, arrow.Boolean) ].

(** ** Reference counting *)

(** The reader has not been torn down. *)
Definition live (w : World) : Prop :=
  rows (rdr w) <> None /\ bldr (rdr w) <> None /\ schema (rdr w) <> None.

(** Everything but the count is as it was, and no call was made. *)
Definition onlyCountChanged (w w' : World) : Prop :=
  schema (rdr w') = schema (rdr w) /\
  rows (rdr w') = rows (rdr w) /\
  record (rdr w') = record (rdr w) /\
  bldr (rdr w') = bldr (rdr w) /\
  err (rdr w') = err (rdr w) /\
  rowdest (rdr w') = rowdest (rdr w) /\
  trace w' = trace w.

Fixpoint retains (n : nat) (w : World) : World :=
  match n with
  | O => w
  | S n' => retains n' (Retain w)
  end.

Fixpoint releases (n : nat) (w : World) : outcome World :=
  match n with
  | O => Ok w
  | S n' => w' <- Release w ;; releases n' w'
  end.

Definition isRowsClose (e : Event) : bool :=
  match e with
  | RowsClose => true
  | _ => false
  end.

Definition closes (tr : list Event) : nat := length (filter isRowsClose tr).

(** ** A sample environment and sample cursors *)

Module Sample.

Definition Schema_String (s : arrow.Schema) : string :=
  "schema: fields: " ++ Itoa (length s).

Definition anypb_New (detail : string) : bool := true.

(** A stand-in for the narrowing of a float: the low 32 bits. *)
Definition float32_of_float64 (x : Z) : Z := (x mod 2 ^ 32)%Z.

Definition getColumnMetadata (name : string) : arrow.Metadata :=
  [("ARROW:FLIGHT:SQL:TYPE_NAME", name)].

(** The scan of a row of one column: [store] converts the value of the
    row into the destination, if it can. *)
Definition row1 (store : RowDest -> option RowDest) : Row :=
  fun dest =>
    match dest with
    | [Some d] =>
        match store d with
        | Some d' => ([Some d'], None)
        | None => (dest, Some (driverError "sql: Scan error on column index 0"))
        end
    | _ => (dest, Some (driverError "sql: expected 1 destination arguments in Scan"))
    end.

Definition storeInt (v : Z) (d : RowDest) : option RowDest :=
  match d with
  | PUint8 _ => Some (PUint8 v)
  | PNullByte _ => Some (PNullByte (mkNull v true))
  | PInt32 _ => Some (PInt32 v)
  | PNullInt32 _ => Some (PNullInt32 (mkNull v true))
  | PInt64 _ => Some (PInt64 v)
  | PNullInt64 _ => Some (PNullInt64 (mkNull v true))
  | _ => None
  end.

(** A SQL NULL is [None]; it leaves a nil slice behind the pointer. *)
Definition storeBytes (v : option bytes) (d : RowDest) : option RowDest :=
  match d with
  | PBytes (Some _) => Some (PBytes (Some v))
  | _ => None
  end.

Definition intRow (v : Z) : Row := row1 (storeInt v).

Definition bytesRow (v : option bytes) : Row := row1 (storeBytes v).

(** A row whose scan fails and leaves the destinations as they are. *)
Definition failsWith (msg : string) : Row :=
  fun dest => (dest, Some (driverError msg)).

Definition cursor (cols : list sql.ColumnType) (rs : list Row) : Rows :=
  mkRows (inr cols) rs.

Definition Next : World -> outcome (bool * World) :=
  Next Schema_String anypb_New float32_of_float64.

Definition int32Schema : arrow.Schema :=
  [arrow.mkField "n" arrow.Int32 true []].

Definition int32Reader (rs : list Row) : World :=
  NewDuckDBBatchReaderWithSchema int32Schema (cursor [] rs).

End Sample.

(** ** Kinds and shapes of destinations *)

Inductive ElemType : Type := EUint8 | EInt32 | EInt64 | EFloat64 | EString.

Inductive DestKind : Type :=
| GenericCapture
| RawSlot (e : ElemType)
| NullableWrapper (e : ElemType)
| ByteSequence.

Definition kindOf (d : RowDest) : DestKind :=
  match d with
  | PAny _ => GenericCapture
  | PUint8 _ => RawSlot EUint8
  | PNullByte _ => NullableWrapper EUint8
  | PInt64 _ => RawSlot EInt64
  | PNullInt64 _ => NullableWrapper EInt64
  | PInt32 _ => RawSlot EInt32
  | PNullInt32 _ => NullableWrapper EInt32
  | PFloat64 _ => RawSlot EFloat64
  | PNullFloat64 _ => NullableWrapper EFloat64
  | PBytes _ => ByteSequence
  | PString _ => RawSlot EString
  | PNullString _ => NullableWrapper EString
  end.

(** The width in bits of a numeric slot and of a numeric column. *)
Definition elemBits (e : ElemType) : option nat :=
  match e with
  | EUint8 => Some 8
  | EInt32 => Some 32
  | EInt64 => Some 64
  | EFloat64 => Some 64
  | EString => None
  end.

Definition typeBits (id : arrow.TypeID) : option nat :=
  match id with
  | arrow.UINT8 | arrow.INT8 => Some 8
  | arrow.UINT16 | arrow.INT16 => Some 16
  | arrow.UINT32 | arrow.INT32 | arrow.FLOAT32 => Some 32
  | arrow.UINT64 | arrow.INT64 | arrow.FLOAT64 => Some 64
  | _ => None
  end.

(** The closed set of canonical types of the specification. *)
Definition canonicalTypes : list arrow.DataType :=
  [ arrow.Int8; arrow.Int16; arrow.Int32; arrow.Int64;
    arrow.Float32; arrow.Float64; arrow.String; arrow.Binary; arrow.Boolean;
    arrow.Date32; arrow.Time32s; arrow.Timestamp_us; arrow.NullType;
    duckDBDenseUnion ].

(** The type ids for which the switch of the constructors has a case. *)
Definition allocatedIDs : list arrow.TypeID :=
  [ arrow.DENSE_UNION; arrow.SPARSE_UNION; arrow.UINT8; arrow.INT8;
    arrow.INT32; arrow.INT64; arrow.FLOAT32; arrow.FLOAT64;
    arrow.BINARY; arrow.STRING ].

(** The element a slot holds for a type id with a numeric or string case. *)
Definition slotElem (id : arrow.TypeID) : option ElemType :=
  match id with
  | arrow.UINT8 | arrow.INT8 => Some EUint8
  | arrow.INT32 => Some EInt32
  | arrow.INT64 => Some EInt64
  | arrow.FLOAT32 | arrow.FLOAT64 => Some EFloat64
  | arrow.STRING => Some EString
  | _ => None
  end.

(** Two destinations of the same dynamic type; for a byte-sequence
    pointer, nil or not alike. *)
Definition sameShape (a b : option RowDest) : Prop :=
  match a, b with
  | None, None => True
  | Some (PBytes p), Some (PBytes q) =>
      match p, q with
      | None, None => True
      | Some _, Some _ => True
      | _, _ => False
      end
  | Some x, Some y => kindOf x = kindOf y
  | _, _ => False
  end.

(** A row whose scan leaves every destination with its dynamic type. *)
Definition keepsShapes (row : Row) : Prop :=
  forall dest, Forall2 sameShape dest (fst (row dest)).

(** ** Builders over a run of the scan loop *)

(** [fb'] has the type of [fb] and its cells followed by at most [k] more. *)
Definition extends (k : nat) (fb fb' : FieldBuilder) : Prop :=
  btype fb' = btype fb /\
  exists t, cells fb' = (cells fb ++ t)%list /\ length t <= k.

Definition extendsAll (k : nat) (b b' : option RecordBuilder) : Prop :=
  match b, b' with
  | Some x, Some y => Forall2 (extends k) x y
  | None, None => True
  | _, _ => False
  end.

(** A destination whose append on this builder adds exactly one cell,
    whatever value the scan stored in it. *)
Definition compatible (d : option RowDest) (fb : FieldBuilder) : bool :=
  match d with
  | Some (PUint8 _) | Some (PNullByte _) =>
      arrow.TypeID_beq (arrow.ID (btype fb)) arrow.UINT8
  | Some (PInt64 _) | Some (PNullInt64 _) =>
      arrow.TypeID_beq (arrow.ID (btype fb)) arrow.INT64
  | Some (PInt32 _) | Some (PNullInt32 _) =>
      arrow.TypeID_beq (arrow.ID (btype fb)) arrow.INT32
  | Some (PFloat64 _) | Some (PNullFloat64 _) =>
      arrow.TypeID_beq (arrow.ID (btype fb)) arrow.FLOAT64
      || arrow.TypeID_beq (arrow.ID (btype fb)) arrow.FLOAT32
  | Some (PBytes (Some _)) =>
      arrow.TypeID_beq (arrow.ID (btype fb)) arrow.BINARY
  | Some (PString _) | Some (PNullString _) =>
      arrow.TypeID_beq (arrow.ID (btype fb)) arrow.STRING
  | _ => false
  end.

(** The fields for which the constructors allocate a destination that
    [Next] can append to the builder of the field. *)
Definition appendable (f : arrow.Field) : bool :=
  match arrow.ID (arrow.Typ f) with
  | arrow.UINT8 | arrow.INT32 | arrow.INT64 | arrow.FLOAT32 | arrow.FLOAT64
  | arrow.BINARY | arrow.STRING => true
  | _ => false
  end.

(** Every destination fits its builder and every column has [L] cells. *)
Definition aligned (L : nat) (dest : list (option RowDest)) (b : RecordBuilder) : Prop :=
  Forall2 (fun d fb => compatible d fb = true) dest b /\
  Forall (fun fb => length (cells fb) = L) b.

Definition grownByOne (fb fb' : FieldBuilder) : Prop :=
  btype fb' = btype fb /\ length (cells fb') = S (length (cells fb)).

Definition rowsOf (exit : LoopExit) : nat :=
  match exit with
  | ScanFailed n _ => n
  | Drained n => n
  end.

(** A row whose scan, into destinations of the dynamic types of [tmpl],
    succeeds and keeps these types. *)
Definition wellBehaved (tmpl : list (option RowDest)) (row : Row) : Prop :=
  forall dest,
    Forall2 sameShape tmpl dest ->
    Forall2 sameShape dest (fst (row dest)) /\ snd (row dest) = None.

Definition reset (b : RecordBuilder) : RecordBuilder :=
  map (fun fb => mkFieldBuilder (btype fb) []) b.


(** The kind of destination that the constructors allocate for a type id
    and a nullability, for the ids that their switch lists. *)
Definition allocatedKind (id : arrow.TypeID) (nullable : bool) : option DestKind :=
  match id with
  | arrow.DENSE_UNION | arrow.SPARSE_UNION => Some GenericCapture
  | arrow.BINARY => Some ByteSequence
  | _ =>
      match slotElem id with
      | Some e => Some (if nullable then NullableWrapper e else RawSlot e)
      | None => None
      end
  end.

(** ** Nullable wrappers *)

Definition wrapperValid (d : RowDest) : option bool :=
  match d with
  | PNullByte n | PNullInt64 n | PNullInt32 n | PNullFloat64 n => Some (Valid n)
  | PNullString n => Some (Valid n)
  | _ => None
  end.

(** The cell for the value of a wrapper in a column of type id [id]. *)
Definition wrapperCell (f32 : Z -> Z) (id : arrow.TypeID) (d : RowDest) : option Cell :=
  match d with
  | PNullByte n => Some (CUint8 (V n))
  | PNullInt64 n => Some (CInt64 (V n))
  | PNullInt32 n => Some (CInt32 (V n))
  | PNullFloat64 n =>
      match id with
      | arrow.FLOAT32 => Some (CFloat32 (f32 (V n)))
      | _ => Some (CFloat64 (V n))
      end
  | PNullString n => Some (CString (V n))
  | _ => None
  end.

(** * Definitions for further properties *)

(** ** The life of a reader *)

(** The reader after teardown: every reference it held is nil. *)
Definition tornDown (w : World) : Prop :=
  rows (rdr w) = None /\ bldr (rdr w) = None /\ schema (rdr w) = None /\
  record (rdr w) = None /\ rowdest (rdr w) = [].

(** The reader serves the schema [s]: [Schema] returns it, the builder
    has one field builder per field, of the type of the field, and an
    exposed batch has one column per field. *)
Definition serves (s : arrow.Schema) (w : World) : Prop :=
  schema (rdr w) = Some s /\
  (exists fbs, bldr (rdr w) = Some fbs /\ map btype fbs = map arrow.Typ s) /\
  (forall rec, record (rdr w) = Some rec -> length (columns rec) = length s).

Definition isBuilderRelease (e : Event) : bool :=
  match e with
  | BuilderRelease => true
  | _ => false
  end.

(** The records released so far, in order. *)
Definition released (tr : list Event) : list Record_ :=
  flat_map (fun e => match e with RecordRelease rec => [rec] | _ => [] end) tr.

(** The record the reader holds, if any. *)
Definition held (w : World) : list Record_ :=
  match record (rdr w) with
  | Some rec => [rec]
  | None => []
  end.

(** The records that the calls of [Next] in a sequence of calls leave in
    the reader, in order. *)
Fixpoint created (Schema_String : arrow.Schema -> string) (anypb_New : string -> bool)
    (float32_of_float64 : Z -> Z) (calls : list Call) (w : World) : list Record_ :=
  match calls with
  | [] => []
  | CallNext :: calls' =>
      match Next Schema_String anypb_New float32_of_float64 w with
      | Ok (_, w') =>
          (held w' ++ created Schema_String anypb_New float32_of_float64 calls' w')%list
      | Panic _ => []
      end
  | CallRetain :: calls' =>
      created Schema_String anypb_New float32_of_float64 calls' (Retain w)
  | CallRelease :: calls' =>
      match Release w with
      | Ok w' => created Schema_String anypb_New float32_of_float64 calls' w'
      | Panic _ => []
      end
  end.

Definition builderReleases (tr : list Event) : nat :=
  length (filter isBuilderRelease tr).

(** Either the reader is live and neither the cursor nor the builder was
    given up, or it is torn down and each was given up once. *)
Definition consistent (w : World) : Prop :=
  (live w /\ closes (trace w) = 0 /\ builderReleases (trace w) = 0) \/
  (tornDown w /\ closes (trace w) = 1 /\ builderReleases (trace w) = 1).

(** ** Inferred schemas *)

(** The types for which the constructors leave the destination nil. *)
Definition unallocatedTypes : list arrow.DataType :=
  [ arrow.Int16; arrow.Boolean; arrow.Date32; arrow.Time32s;
    arrow.Timestamp_us; arrow.NullType ].

(** The declared names that are mapped to one of them. *)
Definition unallocatedNames : list string :=
  [ "smallint"; "date"; "time"; "timestamp"; "boolean" ].

(** What [NewDuckDBBatchReader] makes of column [c] at index [i]. *)
Definition fieldOf (md : string -> arrow.Metadata) (i : nat) (c : sql.ColumnType)
    (f : arrow.Field) : Prop :=
  getArrowType c = Ok (arrow.Typ f) /\
  arrow.Nullable f = fst (sql.Nullable c) /\
  arrow.Metadata_ f = md (sql.DatabaseTypeName c) /\
  arrow.Name f
  = (if String.eqb (sql.Name c) "?" then sql.Name c ++ ":" ++ Itoa i
     else sql.Name c)%string.

(** A destination for an 8-bit column that holds a value to append. *)
Definition holdsByte (d : option RowDest) : bool :=
  match d with
  | Some (PUint8 _) => true
  | Some (PNullByte n) => Valid n
  | _ => false
  end.

(** ** Cells and columns *)

(** The cell that [Next] appends for a destination that fits a builder
    of type id [id]. *)
Definition cellOf (float32_of_float64 : Z -> Z) (id : arrow.TypeID)
    (d : option RowDest) : Cell :=
  match d with
  | Some (PUint8 x) => CUint8 x
  | Some (PNullByte n) => if Valid n then CUint8 (V n) else CNull
  | Some (PInt64 x) => CInt64 x
  | Some (PNullInt64 n) => if Valid n then CInt64 (V n) else CNull
  | Some (PInt32 x) => CInt32 x
  | Some (PNullInt32 n) => if Valid n then CInt32 (V n) else CNull
  | Some (PFloat64 x) =>
      match id with
      | arrow.FLOAT32 => CFloat32 (float32_of_float64 x)
      | _ => CFloat64 x
      end
  | Some (PNullFloat64 n) =>
      if Valid n then
        match id with
        | arrow.FLOAT32 => CFloat32 (float32_of_float64 (V n))
        | _ => CFloat64 (V n)
        end
      else CNull
  | Some (PBytes (Some s)) =>
      CBinary (match s with Some l => l | None => [] end)
  | Some (PString x) => CString x
  | Some (PNullString n) => if Valid n then CString (V n) else CNull
  | _ => CNull
  end.

(** One more cell in every column that has a destination. *)
Fixpoint appendCells (float32_of_float64 : Z -> Z) (b : RecordBuilder)
    (dest : list (option RowDest)) : RecordBuilder :=
  match b, dest with
  | fb :: b', d :: dest' =>
      append fb (cellOf float32_of_float64 (arrow.ID (btype fb)) d)
      :: appendCells float32_of_float64 b' dest'
  | _, _ => b
  end.

(** The destinations after the scan of each row, in the order of the rows. *)
Fixpoint dests (rs : list Row) (dest : list (option RowDest))
  : list (list (option RowDest)) :=
  match rs with
  | [] => []
  | row :: rs' => fst (row dest) :: dests rs' (fst (row dest))
  end.

(** The destinations after the scans of all the rows. *)
Definition destAfter (rs : list Row) (dest : list (option RowDest))
  : list (option RowDest) :=
  fold_left (fun d row => fst (row d)) rs dest.

(** The loop of a consumer, [for r.Next() { ... r.Record() ... }], cut
    after [fuel] calls: the batches it sees, the reader it leaves and
    whether [Next] returned false. *)
Fixpoint collect (Schema_String : arrow.Schema -> string) (anypb_New : string -> bool)
    (float32_of_float64 : Z -> Z) (fuel : nat) (w : World)
  : outcome (list Record_ * World * bool) :=
  match fuel with
  | O => Ok ([], w, false)
  | S fuel' =>
      r <- Next Schema_String anypb_New float32_of_float64 w ;;
      if fst r then
        rest <- collect Schema_String anypb_New float32_of_float64 fuel' (snd r) ;;
        Ok ((held (snd r) ++ fst (fst rest))%list, snd (fst rest), snd rest)
      else Ok ([], snd r, true)
  end.

(** The reader holds [pend] as pending rows, destinations of the dynamic
    types of [tmpl], and empty builders of the types [types], aligned
    with the destinations. *)
Definition poised (types : list arrow.DataType) (tmpl : list (option RowDest))
    (pend : list Row) (w : World) : Prop :=
  exists cur fbs,
    rows (rdr w) = Some cur /\ pending cur = pend /\
    bldr (rdr w) = Some fbs /\ aligned 0 (rowdest (rdr w)) fbs /\
    Forall2 sameShape tmpl (rowdest (rdr w)) /\
    map btype fbs = types /\ types <> [].

(** Column [j] of a batch. *)
Definition column (j : nat) (rec : Record_) : list Cell := nth j (columns rec) [].

(** What column [j], of type [t], holds for the destinations [ds] of a
    run of rows. *)
Definition cellsOfColumn (float32_of_float64 : Z -> Z) (t : arrow.DataType) (j : nat)
    (ds : list (list (option RowDest))) : list Cell :=
  map (fun d => cellOf float32_of_float64 (arrow.ID t) (nth j d None)) ds.

(** A field of a union type. *)
Definition unionField (f : arrow.Field) : bool :=
  match arrow.ID (arrow.Typ f) with
  | arrow.DENSE_UNION | arrow.SPARSE_UNION => true
  | _ => false
  end.

(** A destination for which the type switch of [Next] has no case. *)
Definition noCase (d : option RowDest) : Prop :=
  match d with
  | None => True
  | Some (PAny _) => True
  | _ => False
  end.

(** ** A sample reader over a union column *)

(** The scan of a value into an [*interface{}]. *)
Definition storeAny (v : AnyValue) (d : RowDest) : option RowDest :=
  match d with
  | PAny _ => Some (PAny v)
  | _ => None
  end.

Definition anyRow (v : AnyValue) : Row := Sample.row1 (storeAny v).

Definition unionSchema : arrow.Schema :=
  [arrow.mkField "v" duckDBDenseUnion true []].

(** The scan of a row of two columns, an integer and any value, into a
    nullable int32 destination and an [*interface{}]. *)
Definition row2 (n : Z) (v : AnyValue) : Row :=
  fun dest =>
    match dest with
    | [Some (PNullInt32 _); Some (PAny _)] =>
        ([Some (PNullInt32 (mkNull n true)); Some (PAny v)], None)
    | _ => (dest, Some (driverError "sql: Scan error"))
    end.

(** * The type mapping *)

Section StringFacts.

Import strings.

Lemma lowerByte_idem (c : ascii) : lowerByte (lowerByte c) = lowerByte c.
Proof. destruct c as [[] [] [] [] [] [] [] []]; reflexivity. Qed.

Lemma lowerByte_variant (c d : ascii) :
  lowerByte c = c ->
  (Ascii.eqb d c || (isLower c && Ascii.eqb d (upperByte c))) = true ->
  lowerByte d = c.
Proof.
  intros Hc H.
  apply orb_true_iff in H as [H | H].
  - apply Ascii.eqb_eq in H. now subst d.
  - apply andb_true_iff in H as [Hl H].
    apply Ascii.eqb_eq in H. subst d. clear Hc.
    destruct c as [[] [] [] [] [] [] [] []];
      solve [reflexivity | discriminate Hl].
Qed.

Lemma ToLower_idem (s : string) : ToLower (ToLower s) = ToLower s.
Proof.
  induction s as [|c s IH]; simpl; [reflexivity|].
  now rewrite lowerByte_idem, IH.
Qed.

Lemma ToLower_app (s t : string) : ToLower (s ++ t) = ToLower s ++ ToLower t.
Proof.
  induction s as [|c s IH]; simpl; [reflexivity|].
  now rewrite IH.
Qed.

Lemma ToLower_variant (name : string) :
  ToLower name = name ->
  forall s, isCaseVariant name s = true -> ToLower s = name.
Proof.
  induction name as [|c name IH]; intros Hn s Hs.
  - destruct s; [reflexivity | discriminate].
  - destruct s as [|d s]; [discriminate|].
    simpl in Hn. injection Hn as Hc Hn.
    simpl in Hs. apply andb_true_iff in Hs as [Hd Hs].
    simpl. f_equal.
    + now apply lowerByte_variant.
    + now apply IH.
Qed.

Lemma ToLower_nonempty (s : string) : s <> "" -> String.eqb (ToLower s) "" = false.
Proof. destruct s; [congruence | reflexivity]. Qed.

End StringFacts.

Lemma getArrowType_declared (c : sql.ColumnType) :
  sql.DatabaseTypeName c <> "" ->
  getArrowType c = getArrowTypeFromString (sql.DatabaseTypeName c).
Proof.
  intros Hne. unfold getArrowType.
  rewrite (ToLower_nonempty _ Hne).
  unfold getArrowTypeFromString. now rewrite ToLower_idem.
Qed.

Lemma isCaseVariant_nonempty (name s : string) :
  name <> "" -> strings.isCaseVariant name s = true -> s <> "".
Proof. destruct name, s; simpl; congruence. Qed.

Lemma getArrowTypeFromString_varchar (s q : string) :
  strings.isCaseVariant "varchar" s = true ->
  getArrowTypeFromString (s ++ q) = Ok arrow.String.
Proof.
  intros Hs. unfold getArrowTypeFromString.
  rewrite ToLower_app.
  rewrite (ToLower_variant "varchar" eq_refl s Hs).
  destruct (strings.ToLower q); reflexivity.
Qed.

(** C4.  Every name of the documented table, spelled in any letter case,
    maps to the documented type, through [getArrowTypeFromString] and
    through [getArrowType] for a column that declares it; a spelling of
    "varchar" followed by any qualifier maps to the string type.  The
    mapping is a function of the declared name and the scan type alone. *)
Theorem getArrowType_documented_table :
  forall (name : string) (ty : arrow.DataType) (s q : string) (c : sql.ColumnType),
    In (name, ty) documentedTable ->
    strings.isCaseVariant name s = true ->
    getArrowTypeFromString s = Ok ty /\
    (sql.DatabaseTypeName c = s -> getArrowType c = Ok ty) /\
    (name = "varchar" ->
     getArrowTypeFromString (s ++ q) = Ok arrow.String /\
     (sql.DatabaseTypeName c = s ++ q -> getArrowType c = Ok arrow.String)).
Proof.
  intros name ty s q c Hin Hs.
  assert (Hlow : strings.ToLower name = name).
  { unfold documentedTable in Hin. simpl in Hin.
    repeat (destruct Hin as [Hin | Hin];
            [injection Hin as <- <-; reflexivity|]).
    contradiction. }
  assert (Hne : name <> "").
  { unfold documentedTable in Hin. simpl in Hin.
    repeat (destruct Hin as [Hin | Hin];
            [injection Hin as <- <-; discriminate|]).
    contradiction. }
  assert (Hty : getArrowTypeFromString s = Ok ty).
  { unfold getArrowTypeFromString.
    rewrite (ToLower_variant name Hlow s Hs).
    unfold documentedTable in Hin. simpl in Hin.
    repeat (destruct Hin as [Hin | Hin];
            [injection Hin as <- <-; reflexivity|]).
    contradiction. }
  split; [exact Hty|]. split.
  - intros Hc. rewrite getArrowType_declared; rewrite Hc; [exact Hty|].
    now apply (isCaseVariant_nonempty name).
  - intros ->. split.
    + now apply getArrowTypeFromString_varchar.
    + intros Hc. rewrite getArrowType_declared; rewrite Hc.
      * now apply getArrowTypeFromString_varchar.
      * destruct s; [discriminate Hs | discriminate].
Qed.

Lemma getArrowType_documented_table_witness :
  getArrowTypeFromString "TinyInt" = Ok arrow.Int8 /\
  getArrowTypeFromString "VarChar(255)" = Ok arrow.String.
Proof.
  pose (c := sql.mkColumnType "c" "TinyInt" (true, true) None).
  assert (Hin1 : In ("tinyint", arrow.Int8) documentedTable) by (simpl; auto).
  assert (Hin2 : In ("varchar", arrow.String) documentedTable) by (simpl; auto 20).
  split.
  - exact (proj1 (getArrowType_documented_table
                    "tinyint" arrow.Int8 "TinyInt" "" c Hin1 eq_refl)).
  - exact (proj1 (proj2 (proj2 (getArrowType_documented_table
                    "varchar" arrow.String "VarChar" "(255)" c Hin2 eq_refl))
                    eq_refl)).
Defined.

Lemma columnFields_panics (md : string -> arrow.Metadata) (c : sql.ColumnType) :
  (exists msg, getArrowType c = Panic msg) ->
  forall cols i, In c cols -> exists msg, columnFields md i cols = Panic msg.
Proof.
  intros [msg Hc] cols.
  induction cols as [|c0 cols IH]; intros i Hin; [contradiction|].
  simpl. destruct Hin as [-> | Hin].
  - rewrite Hc. simpl. now exists msg.
  - destruct (getArrowType c0) as [t|m0]; simpl; [|now exists m0].
    destruct (IH (S i) Hin) as [m1 ->]. simpl. now exists m1.
Qed.

(** C8.  A non-empty declared name, in ASCII, that, once lowered, neither
    starts with "varchar" nor is a name of the table makes the mapping
    panic with "invalid DuckDB type"; so does [getArrowType] for a column
    declaring it, and [NewDuckDBBatchReader] over any cursor with such a
    column panics too, so that no reader and no schema is built. *)
Theorem unsupported_type_panics :
  forall (name : string),
    strings.isASCII name = true ->
    name <> "" ->
    strings.HasPrefix (strings.ToLower name) "varchar" = false ->
    oneOf (strings.ToLower name) tableNames = false ->
    getArrowTypeFromString name
      = Panic ("invalid DuckDB type: " ++ strings.ToLower name) /\
    forall (c : sql.ColumnType),
      sql.DatabaseTypeName c = name ->
      getArrowType c = Panic ("invalid DuckDB type: " ++ strings.ToLower name) /\
      forall (md : string -> arrow.Metadata) (rows : Rows) (cols : list sql.ColumnType),
        ColumnTypes rows = inr cols ->
        In c cols ->
        exists msg, NewDuckDBBatchReader md rows = Panic msg.
Proof.
  intros name _ Hne Hpre Htab.
  assert (H : getArrowTypeFromString name
              = Panic ("invalid DuckDB type: " ++ strings.ToLower name)).
  { unfold getArrowTypeFromString.
    rewrite (ToLower_nonempty _ Hne), Hpre.
    unfold tableNames, documentedTable, oneOf in Htab.
    cbn [map fst existsb] in Htab.
    repeat (apply orb_false_iff in Htab; destruct Htab as [? Htab]).
    unfold oneOf. cbn [existsb].
    repeat match goal with
           | E : String.eqb _ _ = false |- _ => rewrite E; clear E
           end.
    reflexivity. }
  split; [exact H|].
  intros c Hc.
  assert (H' : getArrowType c
               = Panic ("invalid DuckDB type: " ++ strings.ToLower name)).
  { rewrite getArrowType_declared; rewrite Hc; assumption. }
  split; [exact H'|].
  intros md rows cols Hcols Hin.
  unfold NewDuckDBBatchReader. rewrite Hcols.
  destruct (columnFields_panics md c (ex_intro _ _ H') cols 0 Hin) as [msg ->].
  now exists msg.
Qed.

Lemma unsupported_type_panics_witness :
  getArrowTypeFromString "HUGEINT" = Panic "invalid DuckDB type: hugeint".
Proof.
  refine (proj1 (unsupported_type_panics "HUGEINT" eq_refl _ eq_refl eq_refl)).
  discriminate.
Defined.

(** C9, amended.  For a column without a declared type name: without a
    scan type the mapping gives the three-way dense union; with a scan
    type of one of the listed kinds it gives the type listed for it; with
    a scan type of any other kind it gives the null type, and no panic is
    raised. *)
Theorem getArrowType_undeclared :
  forall (c : sql.ColumnType),
    sql.DatabaseTypeName c = "" ->
    (sql.ScanType c = None -> getArrowType c = Ok duckDBDenseUnion) /\
    (forall k t, sql.ScanType c = Some k -> In (k, t) nativeKindTable ->
                 getArrowType c = Ok t) /\
    (forall k, sql.ScanType c = Some k ->
               (forall t, ~ In (k, t) nativeKindTable) ->
               getArrowType c = Ok arrow.NullType).
Proof.
  intros c Hname. unfold getArrowType. rewrite Hname. simpl.
  split; [|split].
  - now intros ->.
  - intros k t -> Hin. simpl in Hin.
    repeat (destruct Hin as [Hin | Hin];
            [injection Hin as <- <-; reflexivity|]).
    contradiction.
  - intros k -> Hout.
    destruct k; try reflexivity;
      exfalso; eapply Hout; simpl; auto 20.
Qed.

Lemma getArrowType_undeclared_witness :
  getArrowType (sql.mkColumnType "n" "" (false, false) (Some reflect.Uint16))
  = Ok arrow.Int16.
Proof.
  refine (proj1 (proj2 (getArrowType_undeclared
            (sql.mkColumnType "n" "" (false, false) (Some reflect.Uint16))
            eq_refl)) reflect.Uint16 arrow.Int16 eq_refl _).
  simpl. auto 20.
Defined.

(** C9, as stated, fails: a scan type of kind slice, which is none of the
    listed kinds, is mapped to the null type instead of raising an error. *)
Lemma getArrowType_unlisted_kind_no_panic :
  getArrowType (sql.mkColumnType "n" "" (false, false) (Some reflect.Slice))
  = Ok arrow.NullType /\
  ~ (exists msg,
       getArrowType (sql.mkColumnType "n" "" (false, false) (Some reflect.Slice))
       = Panic msg).
Proof.
  split; [reflexivity|].
  intros [msg H]. discriminate H.
Qed.

(** * Reference counting *)

Section Wrap64.

Local Open Scope Z_scope.

Lemma wrap64_add (a b : Z) : wrap64 (wrap64 a + b) = wrap64 (a + b).
Proof.
  unfold wrap64.
  replace ((a + 2 ^ 63) mod 2 ^ 64 - 2 ^ 63 + b + 2 ^ 63)
    with ((a + 2 ^ 63) mod 2 ^ 64 + b) by ring.
  rewrite Zplus_mod_idemp_l.
  now replace (a + 2 ^ 63 + b) with (a + b + 2 ^ 63) by ring.
Qed.

Lemma wrap64_zero_iff (z : Z) : wrap64 z = 0 <-> exists k, z = k * 2 ^ 64.
Proof.
  unfold wrap64. split.
  - intros H.
    exists ((z + 2 ^ 63) / 2 ^ 64).
    pose proof (Z.div_mod (z + 2 ^ 63) (2 ^ 64) ltac:(lia)) as E. lia.
  - intros [k ->].
    rewrite Z.add_comm, Z_mod_plus_full. reflexivity.
Qed.

Lemma wrap64_nonzero (z : Z) : 0 < z < 2 ^ 64 -> wrap64 z <> 0.
Proof.
  intros Hz H. apply wrap64_zero_iff in H as [k Hk].
  change (2 ^ 64) with 18446744073709551616 in *. lia.
Qed.

Lemma wrap64_0 : wrap64 0 = 0.
Proof. reflexivity. Qed.

End Wrap64.

Lemma Retain_onlyCount (w : World) :
  onlyCountChanged w (Retain w) /\
  refCount (rdr (Retain w)) = wrap64 (refCount (rdr w) + 1).
Proof. unfold onlyCountChanged, Retain; simpl; repeat split. Qed.

Lemma onlyCountChanged_refl (w : World) : onlyCountChanged w w.
Proof. unfold onlyCountChanged; repeat split. Qed.

Lemma onlyCountChanged_trans (a b c : World) :
  onlyCountChanged a b -> onlyCountChanged b c -> onlyCountChanged a c.
Proof.
  unfold onlyCountChanged.
  intros (H1 & H2 & H3 & H4 & H5 & H6 & H7) (K1 & K2 & K3 & K4 & K5 & K6 & K7).
  repeat split; congruence.
Qed.

Lemma onlyCountChanged_live (w w' : World) :
  onlyCountChanged w w' -> live w -> live w'.
Proof.
  unfold onlyCountChanged, live.
  intros (H1 & H2 & H3 & H4 & H5 & H6 & H7) (L1 & L2 & L3).
  repeat split; congruence.
Qed.

Lemma retains_spec (n : nat) :
  forall w,
    onlyCountChanged w (retains n w) /\
    wrap64 (refCount (rdr (retains n w))) = wrap64 (refCount (rdr w) + Z.of_nat n).
Proof.
  induction n as [|n IH]; intros w.
  - simpl. split; [apply onlyCountChanged_refl|]. now rewrite Z.add_0_r.
  - cbn [retains]. destruct (IH (Retain w)) as [Ho Hc].
    destruct (Retain_onlyCount w) as [Ho1 Hc1].
    split; [eapply onlyCountChanged_trans; eassumption|].
    rewrite Hc, Hc1, wrap64_add. f_equal; lia.
Qed.

Lemma Release_nonzero (w : World) :
  wrap64 (refCount (rdr w) - 1) <> 0%Z ->
  exists w', Release w = Ok w' /\
             onlyCountChanged w w' /\
             refCount (rdr w') = wrap64 (refCount (rdr w) - 1).
Proof.
  intros Hnz. unfold Release.
  apply Z.eqb_neq in Hnz. rewrite Hnz.
  eexists. split; [reflexivity|].
  unfold onlyCountChanged; simpl; repeat split.
Qed.

Lemma Release_zero (w : World) :
  live w ->
  wrap64 (refCount (rdr w) - 1) = 0%Z ->
  exists w',
    Release w = Ok w' /\
    refCount (rdr w') = 0%Z /\
    schema (rdr w') = None /\ rows (rdr w') = None /\ record (rdr w') = None /\
    bldr (rdr w') = None /\ rowdest (rdr w') = [] /\ err (rdr w') = err (rdr w) /\
    trace w' = (trace w ++ [RowsClose; BuilderRelease]
                  ++ match record (rdr w) with
                     | Some rec => [RecordRelease rec]
                     | None => []
                     end)%list.
Proof.
  intros (Hr & Hb & _) Hz. unfold Release.
  rewrite Hz. simpl.
  destruct (rows (rdr w)); [|congruence].
  destruct (bldr (rdr w)); [|congruence].
  eexists. split; [reflexivity|]. simpl. repeat split.
Qed.

Lemma releases_before_zero (j : nat) :
  forall w,
    (forall i, (1 <= i <= j)%nat -> wrap64 (refCount (rdr w) - Z.of_nat i) <> 0%Z) ->
    exists w', releases j w = Ok w' /\
               onlyCountChanged w w' /\
               wrap64 (refCount (rdr w')) = wrap64 (refCount (rdr w) - Z.of_nat j).
Proof.
  induction j as [|j IH]; intros w Hnz.
  - exists w. simpl. split; [reflexivity|].
    split; [apply onlyCountChanged_refl|]. now rewrite Z.sub_0_r.
  - cbn [releases].
    destruct (Release_nonzero w) as (w1 & -> & Ho1 & Hc1).
    { apply (Hnz 1%nat). lia. }
    simpl.
    destruct (IH w1) as (w' & Hrel & Ho & Hc).
    { intros i Hi. rewrite Hc1.
      replace (wrap64 (refCount (rdr w) - 1) - Z.of_nat i)%Z
        with (wrap64 (refCount (rdr w) - 1) + - Z.of_nat i)%Z by ring.
      rewrite wrap64_add.
      replace (refCount (rdr w) - 1 + - Z.of_nat i)%Z
        with (refCount (rdr w) - Z.of_nat (S i))%Z by lia.
      apply Hnz. lia. }
    exists w'. split; [exact Hrel|].
    split; [eapply onlyCountChanged_trans; eassumption|].
    rewrite Hc, Hc1.
    replace (wrap64 (refCount (rdr w) - 1) - Z.of_nat j)%Z
      with (wrap64 (refCount (rdr w) - 1) + - Z.of_nat j)%Z by ring.
    rewrite wrap64_add. f_equal; lia.
Qed.

Lemma releases_app (a b : nat) (w : World) :
  releases (a + b) w = (w' <- releases a w ;; releases b w').
Proof.
  revert w. induction a as [|a IH]; intros w; simpl; [reflexivity|].
  destruct (Release w) as [w1|m]; simpl; [apply IH | reflexivity].
Qed.

Lemma NewDuckDBBatchReaderWithSchema_fresh (s : arrow.Schema) (cur : Rows) :
  refCount (rdr (NewDuckDBBatchReaderWithSchema s cur)) = 1%Z /\
  live (NewDuckDBBatchReaderWithSchema s cur) /\
  trace (NewDuckDBBatchReaderWithSchema s cur) = [].
Proof. unfold live; simpl; repeat split; discriminate. Qed.

Lemma NewDuckDBBatchReader_fresh (md : string -> arrow.Metadata) (cur : Rows) (w : World) :
  NewDuckDBBatchReader md cur = Ok (Constructed w) ->
  refCount (rdr w) = 1%Z /\ live w /\ trace w = [].
Proof.
  unfold NewDuckDBBatchReader.
  destruct (ColumnTypes cur) as [e|cols]; [discriminate|].
  destruct (columnFields md 0 cols) as [fs|m]; simpl; [|discriminate].
  intros H. injection H as <-.
  unfold live; simpl; repeat split; discriminate.
Qed.

Lemma NewDuckDBBatchReader_as_WithSchema (md : string -> arrow.Metadata)
    (cur : Rows) (w : World) :
  NewDuckDBBatchReader md cur = Ok (Constructed w) ->
  exists s, w = NewDuckDBBatchReaderWithSchema s cur.
Proof.
  unfold NewDuckDBBatchReader.
  destruct (ColumnTypes cur) as [e|cols]; [discriminate|].
  destruct (columnFields md 0 cols) as [fs|m]; simpl; [|discriminate].
  intros H. injection H as <-. now exists fs.
Qed.

(** C3.  A reader is constructed with count 1.  For a live reader whose
    count is 1, after [N] calls of [Retain] (with [N + 1] below 2^64, the
    range of the counter) every run of at most [N] calls of [Release]
    succeeds, makes no call on the cursor, the builder or a record and
    leaves the reader as it was; the run of [N + 1] calls succeeds and its
    last call alone closes the cursor, once, then releases the builder and
    the retained record. *)
Theorem release_tears_down_once :
  forall (w : World) (N : nat),
    live w ->
    refCount (rdr w) = 1%Z ->
    (Z.of_nat N + 1 < 2 ^ 64)%Z ->
    (forall s cur, refCount (rdr (NewDuckDBBatchReaderWithSchema s cur)) = 1%Z) /\
    (forall md cur w0, NewDuckDBBatchReader md cur = Ok (Constructed w0) ->
                       refCount (rdr w0) = 1%Z) /\
    (forall j, (j <= N)%nat ->
       exists wj, releases j (retains N w) = Ok wj /\
                  onlyCountChanged w wj /\
                  closes (trace wj) = closes (trace w)) /\
    (exists wf, releases (S N) (retains N w) = Ok wf /\
                refCount (rdr wf) = 0%Z /\
                trace wf = (trace w ++ [RowsClose; BuilderRelease]
                              ++ match record (rdr w) with
                                 | Some rec => [RecordRelease rec]
                                 | None => []
                                 end)%list /\
                closes (trace wf) = S (closes (trace w))).
Proof.
  intros w N Hlive Hrc HN.
  destruct (retains_spec N w) as [Hret Hcnt].
  assert (Hbefore : forall j, (j <= N)%nat ->
            exists wj, releases j (retains N w) = Ok wj /\
                       onlyCountChanged w wj /\
                       wrap64 (refCount (rdr wj)) = wrap64 (1 + Z.of_nat N - Z.of_nat j)).
  { intros j Hj.
    destruct (releases_before_zero j (retains N w)) as (wj & Hrel & Ho & Hc).
    - intros i Hi.
      replace (refCount (rdr (retains N w)) - Z.of_nat i)%Z
        with (refCount (rdr (retains N w)) + - Z.of_nat i)%Z by ring.
      rewrite <- wrap64_add, Hcnt, wrap64_add, Hrc.
      apply wrap64_nonzero. lia.
    - exists wj. split; [exact Hrel|].
      split; [eapply onlyCountChanged_trans; eassumption|].
      rewrite Hc.
      replace (refCount (rdr (retains N w)) - Z.of_nat j)%Z
        with (refCount (rdr (retains N w)) + - Z.of_nat j)%Z by ring.
      rewrite <- wrap64_add, Hcnt, wrap64_add, Hrc. f_equal; lia. }
  split; [intros; reflexivity|].
  split; [intros md cur w0 H; now apply (NewDuckDBBatchReader_fresh md cur)|].
  split.
  - intros j Hj. destruct (Hbefore j Hj) as (wj & Hrel & Ho & _).
    exists wj. split; [exact Hrel|]. split; [exact Ho|].
    destruct Ho as (_ & _ & _ & _ & _ & _ & Ht). now rewrite Ht.
  - destruct (Hbefore N (le_n N)) as (wN & Hrel & Ho & Hc).
    destruct (Release_zero wN) as (wf & Hf & Hz & _ & _ & _ & _ & _ & _ & Ht).
    + eapply onlyCountChanged_live; eassumption.
    + replace (refCount (rdr wN) - 1)%Z with (refCount (rdr wN) + -1)%Z by ring.
      rewrite <- wrap64_add, Hc, wrap64_add.
      replace (1 + Z.of_nat N - Z.of_nat N + -1)%Z with 0%Z by lia.
      reflexivity.
    + exists wf.
      replace (S N) with (N + 1)%nat by lia.
      rewrite releases_app, Hrel. simpl. rewrite Hf. simpl.
      split; [reflexivity|]. split; [exact Hz|].
      destruct Ho as (_ & _ & Hrec & _ & _ & _ & Htr).
      rewrite Hrec, Htr in Ht.
      split; [exact Ht|].
      rewrite Ht. unfold closes. rewrite filter_app, length_app. simpl.
      destruct (record (rdr w)); simpl; lia.
Qed.

Lemma release_tears_down_once_witness :
  exists wf,
    releases 3 (retains 2 (Sample.int32Reader [])) = Ok wf /\
    closes (trace wf) = 1.
Proof.
  destruct (release_tears_down_once (Sample.int32Reader []) 2)
    as (_ & _ & _ & wf & H1 & _ & _ & H2).
  - unfold live; simpl; repeat split; discriminate.
  - reflexivity.
  - reflexivity.
  - exists wf. split; [exact H1 | exact H2].
Defined.

(** C10.  The call of [Release] that brings the count of a live reader to
    zero succeeds and leaves the reader with no schema, no record, no
    destinations, no builder and no cursor, so that [Schema] and [Record]
    return nil afterwards; and whenever a call of [Release] returns with
    the count at zero, both accessors return nil. *)
Theorem Release_to_zero_clears :
  forall (w : World),
    live w ->
    wrap64 (refCount (rdr w) - 1) = 0%Z ->
    (exists w',
       Release w = Ok w' /\
       refCount (rdr w') = 0%Z /\
       Schema w' = None /\ Record' w' = None /\
       rowdest (rdr w') = [] /\ bldr (rdr w') = None /\ rows (rdr w') = None) /\
    (forall v v', Release v = Ok v' -> refCount (rdr v') = 0%Z ->
                  Schema v' = None /\ Record' v' = None).
Proof.
  intros w Hlive Hz. split.
  - destruct (Release_zero w Hlive Hz)
      as (w' & H & Hc & Hs & Hr & Hrec & Hb & Hd & _ & _).
    exists w'. unfold Schema, Record'. repeat split; assumption.
  - intros v v'. unfold Release, Schema, Record'.
    destruct (wrap64 (refCount (rdr v) - 1) =? 0)%Z eqn:E.
    + destruct (rows (rdr v)); [|discriminate].
      destruct (bldr (rdr v)); [|discriminate].
      intros H _. injection H as <-. split; reflexivity.
    + intros H Hc. injection H as <-. simpl in Hc.
      apply Z.eqb_neq in E. contradiction.
Qed.

Lemma Release_to_zero_clears_witness :
  exists w',
    Release (Sample.int32Reader []) = Ok w' /\
    Schema w' = None /\ Record' w' = None.
Proof.
  destruct (Release_to_zero_clears (Sample.int32Reader [])) as [(w' & H & _ & Hs & Hr & _) _].
  - unfold live; simpl; repeat split; discriminate.
  - reflexivity.
  - exists w'. repeat split; assumption.
Defined.

(** * The builders, the scan loop and [Next] *)

Open Scope list_scope.

Lemma extends_refl (fb : FieldBuilder) : extends 0 fb fb.
Proof.
  split; [reflexivity|]. exists []. split; [now rewrite app_nil_r | auto].
Qed.

Lemma extends_mono (k k' : nat) (fb fb' : FieldBuilder) :
  k <= k' -> extends k fb fb' -> extends k' fb fb'.
Proof.
  intros Hk (Ht & t & Hc & Hl). split; [exact Ht|].
  exists t. split; [exact Hc | lia].
Qed.

Lemma extends_trans (k1 k2 : nat) (a b c : FieldBuilder) :
  extends k1 a b -> extends k2 b c -> extends (k1 + k2) a c.
Proof.
  intros (Ht1 & t1 & Hc1 & Hl1) (Ht2 & t2 & Hc2 & Hl2).
  split; [congruence|].
  exists (t1 ++ t2)%list. split.
  - now rewrite Hc2, Hc1, app_assoc.
  - rewrite length_app. lia.
Qed.

Lemma Forall2_extends_refl (b : RecordBuilder) : Forall2 (extends 0) b b.
Proof. induction b; constructor; auto using extends_refl. Qed.

Lemma Forall2_extends_mono (k k' : nat) (b b' : RecordBuilder) :
  k <= k' -> Forall2 (extends k) b b' -> Forall2 (extends k') b b'.
Proof.
  intros Hk H. induction H; constructor; eauto using extends_mono.
Qed.

Lemma Forall2_extends_trans (k1 k2 : nat) (a b c : RecordBuilder) :
  Forall2 (extends k1) a b -> Forall2 (extends k2) b c ->
  Forall2 (extends (k1 + k2)) a c.
Proof.
  intros H. revert c. induction H; intros c Hc; inversion Hc; subst;
    constructor; eauto using extends_trans.
Qed.

Lemma extendsAll_refl (b : option RecordBuilder) : extendsAll 0 b b.
Proof. destruct b; simpl; auto using Forall2_extends_refl. Qed.

Lemma extendsAll_trans (k1 k2 : nat) (a b c : option RecordBuilder) :
  extendsAll k1 a b -> extendsAll k2 b c -> extendsAll (k1 + k2) a c.
Proof.
  destruct a, b, c; simpl; try tauto.
  apply Forall2_extends_trans.
Qed.

Lemma extendsAll_mono (k k' : nat) (b b' : option RecordBuilder) :
  k <= k' -> extendsAll k b b' -> extendsAll k' b b'.
Proof.
  destruct b, b'; simpl; try tauto. apply Forall2_extends_mono.
Qed.

Lemma replaceAt_middle {A : Type} (pre : list A) (x y : A) (suf : list A) :
  replaceAt (length pre) x (pre ++ y :: suf) = (pre ++ x :: suf)%list.
Proof.
  unfold replaceAt. induction pre as [|a pre IH]; simpl; [reflexivity|].
  now rewrite IH.
Qed.

Lemma nth_error_middle {A : Type} (pre suf : list A) :
  nth_error (pre ++ suf) (length pre) = nth_error suf 0.
Proof. induction pre; simpl; auto. Qed.

Lemma sameShape_refl (d : option RowDest) : sameShape d d.
Proof. destruct d as [[]|]; simpl; auto. destruct target; auto. Qed.

Lemma sameShape_trans (a b c : option RowDest) :
  sameShape a b -> sameShape b c -> sameShape a c.
Proof.
  destruct a as [[]|], b as [[]|], c as [[]|]; simpl;
    try congruence; try tauto; try discriminate.
  destruct target, target0, target1; tauto.
Qed.

Lemma Forall2_sameShape_refl (l : list (option RowDest)) : Forall2 sameShape l l.
Proof. induction l; constructor; auto using sameShape_refl. Qed.

Lemma Forall2_sameShape_trans (a b c : list (option RowDest)) :
  Forall2 sameShape a b -> Forall2 sameShape b c -> Forall2 sameShape a c.
Proof.
  intros H. revert c. induction H; intros c Hc; inversion Hc; subst;
    constructor; eauto using sameShape_trans.
Qed.

Lemma compatible_sameShape (d d' : option RowDest) (fb : FieldBuilder) :
  sameShape d d' -> compatible d fb = true -> compatible d' fb = true.
Proof.
  destruct d as [[]|], d' as [[]|]; simpl;
    try discriminate; try tauto; try congruence.
  destruct target, target0; tauto.
Qed.

Lemma aligned_sameShape (L : nat) (dest dest' : list (option RowDest)) (b : RecordBuilder) :
  Forall2 sameShape dest dest' -> aligned L dest b -> aligned L dest' b.
Proof.
  intros Hs [Hc Hl]. split; [|exact Hl].
  clear Hl. revert b Hc.
  induction Hs; intros b Hc; inversion Hc; subst; constructor;
    eauto using compatible_sameShape.
Qed.

Lemma allocate_aligned (s : arrow.Schema) :
  forallb appendable s = true -> aligned 0 (allocate s) (NewRecordBuilder s).
Proof.
  unfold aligned, allocate, NewRecordBuilder.
  induction s as [|f s IH]; simpl; intros H.
  - split; constructor.
  - apply andb_true_iff in H as [Hf Hs]. destruct (IH Hs) as [Hc Hl].
    split; constructor; auto.
    unfold appendable in Hf. unfold compatible. simpl.
    destruct (arrow.ID (arrow.Typ f)); try discriminate Hf;
      destruct (arrow.Nullable f); reflexivity.
Qed.

Lemma compatible_btype (d : option RowDest) (fb fb' : FieldBuilder) :
  btype fb' = btype fb -> compatible d fb = true -> compatible d fb' = true.
Proof. intros Ht. unfold compatible. now rewrite Ht. Qed.

Lemma aligned_grown (L : nat) (dest : list (option RowDest)) (b b' : RecordBuilder) :
  aligned L dest b -> Forall2 grownByOne b b' -> aligned (S L) dest b'.
Proof.
  intros [Hc Hl] Hg. split.
  - clear Hl. revert dest Hc.
    induction Hg as [|x y l l' [Ht _] Hg IH]; intros dest Hc;
      inversion Hc; subst; constructor; eauto using compatible_btype.
  - clear Hc.
    induction Hg as [|x y l l' [_ Hlen] Hg IH]; inversion Hl; subst;
      constructor; [lia | auto].
Qed.

Section ReaderFacts.

Variable Schema_String : arrow.Schema -> string.
Variable anypb_New : string -> bool.
Variable float32_of_float64 : Z -> Z.

Local Abbreviation appendValue := (appendValue float32_of_float64).
Local Abbreviation appendRow := (appendRow float32_of_float64).
Local Abbreviation appendRowTo := (appendRowTo float32_of_float64).
Local Abbreviation scanLoop := (scanLoop float32_of_float64).
Local Abbreviation Next := (Next Schema_String anypb_New float32_of_float64).
Local Abbreviation run := (run Schema_String anypb_New float32_of_float64).

Lemma appendValue_extends (fb fb' : FieldBuilder) (v : option RowDest) :
  appendValue fb v = Ok fb' -> extends 1 fb fb'.
Proof.
  assert (Hone : forall c, extends 1 fb (append fb c)).
  { intros c. split; [reflexivity|]. exists [c]. split; [reflexivity | simpl; lia]. }
  assert (Hzero : extends 1 fb fb).
  { apply (extends_mono 0); [lia | apply extends_refl]. }
  unfold appendValue, assertBuilder, AppendNull, bind.
  intros H. destruct v as [[]|];
  repeat match type of H with
         | context [arrow.TypeID_beq ?a ?b] => destruct (arrow.TypeID_beq a b)
         | context [negb ?x] => destruct (negb x)
         | context [arrow.ID ?t] => destruct (arrow.ID t)
         | context [match ?x with _ => _ end] => is_var x; destruct x
         end;
    try discriminate H; injection H as <-; auto.
Qed.

Lemma appendValue_compatible (fb : FieldBuilder) (v : option RowDest) :
  compatible v fb = true ->
  exists c, appendValue fb v = Ok (append fb c).
Proof.
  unfold compatible, appendValue, assertBuilder, AppendNull, bind.
  intros H.
  destruct v as [[]|]; try discriminate H;
    try (rewrite H; try destruct (negb (Valid n)); eexists; reflexivity).
  - apply orb_true_iff in H as [H | H];
      apply arrow.internal_TypeID_dec_bl in H; rewrite H; eexists; reflexivity.
  - destruct (negb (Valid n)); [eexists; reflexivity|].
    apply orb_true_iff in H as [H | H];
      apply arrow.internal_TypeID_dec_bl in H; rewrite H; eexists; reflexivity.
  - destruct target; [|discriminate H]. rewrite H. eexists; reflexivity.
Qed.

Lemma appendRow_extends (dest : list (option RowDest)) :
  forall pre suf b',
    appendRow (length pre) dest (pre ++ suf) = Ok b' ->
    exists suf', b' = (pre ++ suf')%list /\ Forall2 (extends 1) suf suf'.
Proof.
  induction dest as [|v dest IH]; intros pre suf b' H.
  - simpl in H. injection H as <-. exists suf. split; [reflexivity|].
    apply (Forall2_extends_mono 0); [lia | apply Forall2_extends_refl].
  - cbn [appendRow] in H. unfold Field in H.
    rewrite nth_error_middle in H.
    destruct suf as [|fb suf]; [discriminate H|]. simpl in H.
    destruct (appendValue fb v) as [fb1|m] eqn:E;
      [|discriminate H].
    simpl in H. rewrite replaceAt_middle in H.
    replace (S (length pre)) with (length (pre ++ [fb1])) in H
      by (rewrite length_app; simpl; lia).
    replace (pre ++ fb1 :: suf)%list with ((pre ++ [fb1]) ++ suf)%list in H
      by (now rewrite <- app_assoc).
    destruct (IH _ _ _ H) as (suf' & -> & Hs).
    exists (fb1 :: suf'). split; [now rewrite <- app_assoc|].
    constructor; [now apply (appendValue_extends fb fb1 v) | exact Hs].
Qed.

Lemma appendRow_aligned (dest : list (option RowDest)) :
  forall pre suf,
    Forall2 (fun d fb => compatible d fb = true) dest suf ->
    exists suf',
      appendRow (length pre) dest (pre ++ suf) = Ok (pre ++ suf')%list /\
      Forall2 grownByOne suf suf'.
Proof.
  induction dest as [|v dest IH]; intros pre suf H; inversion H; subst.
  - exists []. split; [reflexivity | constructor].
  - rename y into fb, l' into suf0.
    cbn [appendRow]. unfold Field.
    rewrite nth_error_middle. simpl.
    destruct (appendValue_compatible fb v H2) as [c Hc].
    rewrite Hc. simpl.
    rewrite replaceAt_middle.
    replace (S (length pre)) with (length (pre ++ [append fb c]))
      by (rewrite length_app; simpl; lia).
    replace (pre ++ append fb c :: suf0)%list
      with ((pre ++ [append fb c]) ++ suf0)%list by (now rewrite <- app_assoc).
    destruct (IH (pre ++ [append fb c])%list suf0 H4) as (suf' & Hr & Hg).
    exists (append fb c :: suf'). split.
    + rewrite Hr. now rewrite <- app_assoc.
    + constructor; [|exact Hg].
      split; [reflexivity|]. simpl. rewrite length_app. simpl. lia.
Qed.

Lemma appendRowTo_aligned (L : nat) (dest : list (option RowDest)) (b : RecordBuilder) :
  aligned L dest b ->
  exists b', appendRowTo dest (Some b) = Ok (Some b') /\ aligned (S L) dest b'.
Proof.
  intros [Hc Hl].
  destruct (appendRow_aligned dest [] b Hc) as (b' & Hr & Hg).
  simpl in Hr. exists b'. split.
  - unfold appendRowTo. now rewrite Hr.
  - exact (aligned_grown L dest b b' (conj Hc Hl) Hg).
Qed.

Lemma appendRowTo_extends (dest : list (option RowDest)) (b b' : option RecordBuilder) :
  appendRowTo dest b = Ok b' -> extendsAll 1 b b'.
Proof.
  unfold appendRowTo. destruct b as [fbs|].
  - destruct (appendRow 0 dest fbs) as [fbs'|m] eqn:E;
      [|discriminate].
    simpl. intros H. injection H as <-.
    destruct (appendRow_extends dest [] fbs fbs' E) as (suf' & -> & Hs).
    exact Hs.
  - destruct dest; [|discriminate]. intros H. injection H as <-. exact I.
Qed.

(** ** The scan loop *)

Lemma scanLoop_unfold (cur : list Row) (n : nat) (dest : list (option RowDest))
    (b : option RecordBuilder) :
  scanLoop cur n dest b =
  if (n <? maxBatchSize)%nat then
    match cur with
    | [] => Ok (Drained n, ([], dest, b))
    | row :: rest =>
        match snd (row dest) with
        | Some scanErr => Ok (ScanFailed n scanErr, (rest, fst (row dest), b))
        | None =>
            b' <- appendRowTo (fst (row dest)) b ;;
            scanLoop rest (S n) (fst (row dest)) b'
        end
    end
  else Ok (Drained n, (cur, dest, b)).
Proof.
  destruct cur as [|row rest]; cbn [scanLoop]; [reflexivity|].
  destruct (row dest) as [d e]. reflexivity.
Qed.

(** Whatever the rows do, a run of the loop counts at most up to the cap
    and only adds cells, at most one per row and column. *)
Lemma scanLoop_extends (cur : list Row) :
  forall n dest b exit rest dest' b',
    n <= maxBatchSize ->
    scanLoop cur n dest b = Ok (exit, (rest, dest', b')) ->
    n <= rowsOf exit <= maxBatchSize /\ extendsAll (rowsOf exit - n) b b'.
Proof.
  induction cur as [|row cur IH]; intros n dest b exit rest dest' b' Hn H;
    rewrite scanLoop_unfold in H;
    destruct (n <? maxBatchSize)%nat eqn:E.
  - injection H as <- <- <- <-. simpl. rewrite Nat.sub_diag.
    split; [lia | apply extendsAll_refl].
  - injection H as <- <- <- <-. simpl. rewrite Nat.sub_diag.
    split; [lia | apply extendsAll_refl].
  - destruct (snd (row dest)) as [e|].
    + injection H as <- <- <- <-. simpl. rewrite Nat.sub_diag.
      split; [lia | apply extendsAll_refl].
    + destruct (appendRowTo (fst (row dest)) b) as [b1|m] eqn:Ea; [|discriminate H].
      simpl in H. apply Nat.ltb_lt in E.
      destruct (IH _ _ _ _ _ _ _ E H) as [Hk He].
      split; [lia|].
      replace (rowsOf exit - n) with (1 + (rowsOf exit - S n)) by lia.
      eapply extendsAll_trans; [|exact He].
      eapply appendRowTo_extends; exact Ea.
  - injection H as <- <- <- <-. simpl. rewrite Nat.sub_diag.
    split; [lia | apply extendsAll_refl].
Qed.

Lemma scanLoop_shapes (cur : list Row) :
  forall n dest b exit rest dest' b',
    Forall keepsShapes cur ->
    scanLoop cur n dest b = Ok (exit, (rest, dest', b')) ->
    Forall2 sameShape dest dest'.
Proof.
  induction cur as [|row cur IH]; intros n dest b exit rest dest' b' Hk H;
    rewrite scanLoop_unfold in H;
    destruct (n <? maxBatchSize)%nat eqn:E;
    try (injection H as <- <- <- <-; apply Forall2_sameShape_refl).
  inversion Hk as [|? ? Hrow Hcur]; subst.
  destruct (snd (row dest)) as [e|].
  - injection H as <- <- <- <-. apply Hrow.
  - destruct (appendRowTo (fst (row dest)) b) as [b1|m]; [|discriminate H].
    simpl in H.
    eapply Forall2_sameShape_trans; [apply Hrow|].
    eapply IH; eassumption.
Qed.

(** Over well-behaved rows and aligned builders the loop takes rows up to
    the cap and adds one cell to every column for each. *)
Lemma scanLoop_wellBehaved (tmpl : list (option RowDest)) (cur : list Row) :
  forall n dest fbs L m,
    Forall (wellBehaved tmpl) cur ->
    Forall2 sameShape tmpl dest ->
    aligned L dest fbs ->
    m = Nat.min (length cur) (maxBatchSize - n) ->
    exists dest' fbs',
      scanLoop cur n dest (Some fbs)
      = Ok (Drained (n + m), (skipn m cur, dest', Some fbs')) /\
      Forall2 sameShape tmpl dest' /\
      aligned (L + m) dest' fbs'.
Proof.
  induction cur as [|row cur IH]; intros n dest fbs L m Hw Ht Ha Hm;
    rewrite scanLoop_unfold;
    destruct (n <? maxBatchSize)%nat eqn:E.
  - simpl in Hm. subst m. rewrite !Nat.add_0_r. exists dest, fbs. auto.
  - simpl in Hm. subst m. rewrite !Nat.add_0_r. exists dest, fbs. auto.
  - apply Nat.ltb_lt in E.
    inversion Hw as [|? ? Hrow Hcur]; subst.
    destruct (Hrow dest Ht) as [Hshape Hok].
    rewrite Hok.
    assert (Ht1 : Forall2 sameShape tmpl (fst (row dest)))
      by (eapply Forall2_sameShape_trans; eassumption).
    assert (Ha1 : aligned L (fst (row dest)) fbs)
      by (eapply aligned_sameShape; [apply Hshape | exact Ha]).
    destruct (appendRowTo_aligned L _ _ Ha1) as (fbs1 & -> & Ha2).
    simpl bind.
    destruct (IH (S n) (fst (row dest)) fbs1 (S L)
                 (Nat.min (length cur) (maxBatchSize - S n)) Hcur Ht1 Ha2 eq_refl)
      as (dest' & fbs' & Hrun & Ht' & Hal).
    exists dest', fbs'.
    replace (Nat.min (length (row :: cur)) (maxBatchSize - n))
      with (S (Nat.min (length cur) (maxBatchSize - S n)))
      by (simpl length; lia).
    rewrite Hrun. split; [|split; [exact Ht'|]].
    + cbn [skipn].
      now replace (n + S (Nat.min (length cur) (maxBatchSize - S n)))
        with (S n + Nat.min (length cur) (maxBatchSize - S n)) by lia.
    + now replace (L + S (Nat.min (length cur) (maxBatchSize - S n)))
        with (S L + Nat.min (length cur) (maxBatchSize - S n)) by lia.
  - apply Nat.ltb_ge in E.
    replace m with 0 by lia. rewrite !Nat.add_0_r. exists dest, fbs. auto.
Qed.


Lemma checkRows_uniform (L : nat) (b : RecordBuilder) :
  Forall (fun fb => length (cells fb) = L) b ->
  forall i n, i = 0 \/ n = L ->
    checkRows i n b = Ok (match b with [] => n | _ :: _ => L end).
Proof.
  induction 1 as [|fb b Hfb Hb IH]; intros i n Hi; simpl; [reflexivity|].
  rewrite Hfb.
  assert (E : ((0 <? i) && negb (L =? n))%nat = false).
  { destruct Hi as [-> | ->]; [reflexivity|].
    rewrite Nat.eqb_refl. apply andb_false_r. }
  rewrite E. rewrite (IH (S i) L (or_intror eq_refl)).
  now destruct b.
Qed.

Lemma NewRecord_aligned (L : nat) (dest : list (option RowDest)) (b : RecordBuilder) :
  aligned L dest b ->
  b <> [] ->
  NewRecord b = Ok (mkRecord (map cells b) L, reset b) /\
  aligned 0 dest (reset b) /\
  Forall (fun col => length col = L) (map cells b).
Proof.
  intros [Hc Hl] Hne. unfold NewRecord.
  rewrite (checkRows_uniform L b Hl 0 0 (or_introl eq_refl)).
  destruct b as [|fb b]; [congruence|]. simpl bind.
  split; [reflexivity|]. split; [split|].
  - clear Hl Hne. induction Hc; simpl; constructor; auto.
  - unfold reset. apply Forall_map. apply Forall_forall. reflexivity.
  - apply Forall_map. exact Hl.
Qed.









Lemma Next_keeps_shapes (w w' : World) (cur : Rows) (v : bool) :
  rows (rdr w) = Some cur ->
  Forall keepsShapes (pending cur) ->
  Next w = Ok (v, w') ->
  Forall2 sameShape (rowdest (rdr w)) (rowdest (rdr w')).
Proof.
  intros Hr Hk. unfold Next. rewrite Hr.
  destruct (scanLoop (pending cur) 0 (rowdest (rdr w)) (bldr (rdr w)))
    as [[exit [[rest dest] b1]]|m] eqn:E; [|discriminate].
  simpl bind. cbv iota beta.
  pose proof (scanLoop_shapes _ _ _ _ _ _ _ _ Hk E) as Hs.
  destruct exit as [n e|n].
  - destruct (schema (rdr w)); [|discriminate].
    intros H. injection H as _ <-. exact Hs.
  - destruct b1 as [fbs|]; [|discriminate].
    destruct (NewRecord fbs) as [[rec1 fbs1]|m]; [|discriminate].
    simpl bind. cbv iota beta.
    intros H. injection H as _ <-. exact Hs.
Qed.


Lemma Forall_skipn {A : Type} (P : A -> Prop) (n : nat) (l : list A) :
  Forall P l -> Forall P (skipn n l).
Proof.
  intros H. rewrite <- (firstn_skipn n l) in H.
  apply Forall_app in H. tauto.
Qed.



(** C5, amended.  For a field whose type id is one of union (dense or
    sparse), uint8, int8, int32, int64, float32, float64, binary and
    string, the switch of the constructors yields one destination: a
    generic capture slot for a union; a byte-sequence slot for binary,
    nullable or not; otherwise a raw slot if the field is not nullable and
    a nullable wrapper if it is, holding an unsigned byte for uint8 and
    int8, an int32, an int64, a float64 for float32 and float64 alike, or
    a string.  Both constructors fill [rowdest] with these, one entry per
    field, and a call of [Next] hands the same list to every scan: over
    rows whose scans keep the dynamic types, the destinations after the
    call have the shapes they had before. *)
Theorem allocate_shapes :
  forall (f : arrow.Field),
    In (arrow.ID (arrow.Typ f)) allocatedIDs ->
    (exists d,
       newRowDest (arrow.ID (arrow.Typ f)) (arrow.Nullable f) = Some d /\
       Some (kindOf d) = allocatedKind (arrow.ID (arrow.Typ f)) (arrow.Nullable f)) /\
    (forall s cur,
       rowdest (rdr (NewDuckDBBatchReaderWithSchema s cur))
       = map (fun g => newRowDest (arrow.ID (arrow.Typ g)) (arrow.Nullable g)) s /\
       length (rowdest (rdr (NewDuckDBBatchReaderWithSchema s cur))) = length s) /\
    (forall md cur w,
       NewDuckDBBatchReader md cur = Ok (Constructed w) ->
       exists s,
         schema (rdr w) = Some s /\
         rowdest (rdr w)
         = map (fun g => newRowDest (arrow.ID (arrow.Typ g)) (arrow.Nullable g)) s) /\
    (forall w cur v w',
       rows (rdr w) = Some cur ->
       Forall keepsShapes (pending cur) ->
       Next w = Ok (v, w') ->
       Forall2 sameShape (rowdest (rdr w)) (rowdest (rdr w'))).
Proof.
  intros f Hin. split; [|split; [|split]].
  - unfold allocatedIDs in Hin. simpl in Hin.
    destruct (arrow.Nullable f);
      repeat (destruct Hin as [<- | Hin]; [eexists; split; reflexivity|]);
      contradiction.
  - intros s cur. simpl. unfold allocate. split; [reflexivity|].
    now rewrite length_map.
  - intros md cur w. unfold NewDuckDBBatchReader.
    destruct (ColumnTypes cur) as [e|cols]; [discriminate|].
    destruct (columnFields md 0 cols) as [fs|m]; simpl; [|discriminate].
    intros H. injection H as <-. exists fs. split; reflexivity.
  - intros w cur v w'. apply Next_keeps_shapes.
Qed.

End ReaderFacts.

(** * The claims on sample readers *)

Lemma intRow_wellBehaved (v : Z) :
  wellBehaved (allocate Sample.int32Schema) (Sample.intRow v).
Proof.
  intros dest H. simpl in H.
  inversion H as [|a b la lb Hab Hl]; subst.
  inversion Hl; subst.
  destruct b as [[]|]; simpl in Hab; try discriminate Hab; try contradiction.
  split; [|reflexivity].
  simpl. constructor; [reflexivity | constructor].
Qed.




Lemma allocate_shapes_witness :
  exists d,
    newRowDest arrow.INT32 true = Some d /\
    kindOf d = NullableWrapper EInt32.
Proof.
  destruct (allocate_shapes Sample.Schema_String Sample.anypb_New
              Sample.float32_of_float64
              (arrow.mkField "n" arrow.Int32 true []))
    as [(d & Hd & Hk) _].
  - simpl. auto 10.
  - exists d. split; [exact Hd|]. simpl in Hk. congruence.
Defined.

(** C5, as stated, fails: for an int16 field, a type of the canonical set,
    the constructor leaves the destination nil; and for a float32 field
    the slot is a float64, wider than the column. *)
Lemma allocate_int16_unallocated :
  In arrow.Int16 canonicalTypes /\
  rowdest (rdr (NewDuckDBBatchReaderWithSchema
                  [arrow.mkField "n" arrow.Int16 false []] (Sample.cursor [] [])))
  = [None] /\
  In arrow.Float32 canonicalTypes /\
  (exists d,
     newRowDest arrow.FLOAT32 false = Some d /\
     kindOf d = RawSlot EFloat64 /\
     elemBits EFloat64 <> typeBits arrow.FLOAT32).
Proof.
  split; [simpl; auto|]. split; [reflexivity|]. split; [simpl; auto 10|].
  eexists. split; [reflexivity|]. split; [reflexivity|]. discriminate.
Qed.

Lemma appendValue_invalid (f32 : Z -> Z) (fb : FieldBuilder) (d : RowDest) :
  wrapperValid d = Some false ->
  appendValue f32 fb (Some d) = Ok (AppendNull fb).
Proof.
  destruct d; simpl; intros H; try discriminate H;
    injection H as ->; reflexivity.
Qed.

Lemma appendValue_valid (f32 : Z -> Z) (fb : FieldBuilder) (d : RowDest) :
  wrapperValid d = Some true ->
  compatible (Some d) fb = true ->
  exists c,
    wrapperCell f32 (arrow.ID (btype fb)) d = Some c /\
    appendValue f32 fb (Some d) = Ok (append fb c).
Proof.
  destruct d; simpl; intros H Hc; try discriminate H;
    injection H as ->; unfold assertBuilder; simpl;
    try (rewrite Hc; eexists; split; reflexivity).
  apply orb_true_iff in Hc as [Hc | Hc];
    apply arrow.internal_TypeID_dec_bl in Hc; rewrite Hc;
    eexists; split; reflexivity.
Qed.

(** C6 on the code: a nullable tinyint column is mapped to int8, so that
    its builder is an int8 builder, and is given a [sql.NullByte]
    destination; when the scan reports a valid value, the append asserts
    a uint8 builder and [Next] panics instead of appending the value. *)
Lemma Next_nullable_int8_panics :
  let col := sql.mkColumnType "flag" "TINYINT" (true, true) None in
  let cur := Sample.cursor [col] [Sample.intRow 5] in
  let w := NewDuckDBBatchReaderWithSchema
             [arrow.mkField "flag" arrow.Int8 true []] cur in
  getArrowType col = Ok arrow.Int8 /\
  rowdest (rdr w) = [Some (PNullByte (mkNull 0%Z false))] /\
  bldr (rdr w) = Some [mkFieldBuilder arrow.Int8 []] /\
  Sample.intRow 5 (rowdest (rdr w)) = ([Some (PNullByte (mkNull 5%Z true))], None) /\
  Sample.Next w
  = Panic "interface conversion: array.Builder is not of the asserted type" /\
  (forall md, exists w',
     NewDuckDBBatchReader md cur = Ok (Constructed w') /\
     rowdest (rdr w') = rowdest (rdr w) /\
     bldr (rdr w') = bldr (rdr w) /\
     Sample.Next w'
     = Panic "interface conversion: array.Builder is not of the asserted type").
Proof.
  cbv zeta. repeat split; try reflexivity.
  intros md. eexists. repeat split; reflexivity.
Qed.

(** C7 on the code: the scan of a NULL leaves a nil slice behind the
    destination of a binary column and the scan of an empty value a
    slice of length zero; the pointer is not nil in either case, so both
    are appended as values, and the column holds two equal cells, neither
    of them null. *)
Lemma Next_nil_bytes_not_null :
  let col := sql.mkColumnType "payload" "BLOB" (true, true) None in
  let cur := Sample.cursor [col] [Sample.bytesRow None; Sample.bytesRow (Some [])] in
  let w := NewDuckDBBatchReaderWithSchema
             [arrow.mkField "payload" arrow.Binary true []] cur in
  getArrowType col = Ok arrow.Binary /\
  rowdest (rdr w) = [Some (PBytes (Some None))] /\
  Sample.bytesRow None (rowdest (rdr w)) = ([Some (PBytes (Some None))], None) /\
  (exists w' rec,
     Sample.Next w = Ok (true, w') /\
     Record' w' = Some rec /\
     columns rec = [[CBinary []; CBinary []]] /\
     ~ In CNull (concat (columns rec))) /\
  (forall md, exists w0 w' rec,
     NewDuckDBBatchReader md cur = Ok (Constructed w0) /\
     Sample.Next w0 = Ok (true, w') /\
     Record' w' = Some rec /\
     columns rec = [[CBinary []; CBinary []]]).
Proof.
  cbv zeta. split; [reflexivity|]. split; [reflexivity|]. split; [reflexivity|].
  split.
  - do 2 eexists. split; [reflexivity|]. split; [reflexivity|].
    split; [reflexivity|].
    simpl. intros [H | [H | []]]; discriminate H.
  - intros md. do 3 eexists. repeat split; reflexivity.
Qed.

(** * Further properties of the reader *)

Section Lifecycle.

Variable Schema_String : arrow.Schema -> string.
Variable anypb_New : string -> bool.
Variable float32_of_float64 : Z -> Z.

Local Abbreviation scanLoop := (scanLoop float32_of_float64).
Local Abbreviation Next := (Next Schema_String anypb_New float32_of_float64).
Local Abbreviation run := (run Schema_String anypb_New float32_of_float64).
Local Abbreviation created := (created Schema_String anypb_New float32_of_float64).

(** What a call of [Next] that returns leaves unchanged, and the one
    call it makes on another object. *)
Lemma Next_frame (w w' : World) (v : bool) :
  Next w = Ok (v, w') ->
  refCount (rdr w') = refCount (rdr w) /\
  schema (rdr w') = schema (rdr w) /\
  trace w' = trace w ++ map RecordRelease (held w) /\
  rows (rdr w') <> None /\
  (Record' w' = None -> Err w' <> None /\ v = false) /\
  (Record' w' <> None -> Err w' = Err w) /\
  (bldr (rdr w) <> None -> bldr (rdr w') <> None).
Proof.
  unfold Next, Record', Err, held.
  destruct (rows (rdr w)) as [cur|]; [|discriminate].
  destruct (scanLoop (pending cur) 0 (rowdest (rdr w)) (bldr (rdr w)))
    as [[exit [[rest dest] b1]]|m] eqn:E; [|discriminate].
  simpl bind. cbv iota beta.
  assert (Hb : bldr (rdr w) <> None -> b1 <> None).
  { destruct (scanLoop_extends _ _ _ _ _ _ _ _ _ (Nat.le_0_l _) E) as [_ He].
    destruct (bldr (rdr w)), b1; simpl in He; try contradiction;
      intros; congruence. }
  assert (Ht : (match record (rdr w) with
                | Some rec => trace w ++ [RecordRelease rec]
                | None => trace w
                end)
               = trace w ++ map RecordRelease
                              (match record (rdr w) with
                               | Some rec => [rec]
                               | None => []
                               end)).
  { destruct (record (rdr w)); simpl; [reflexivity | now rewrite app_nil_r]. }
  destruct exit as [n e|n].
  - destruct (schema (rdr w)) eqn:Es; [|discriminate].
    intros H. injection H as <- <-. simpl.
    repeat split; intros; try assumption; try discriminate; try congruence;
      auto.
  - destruct b1 as [fbs|]; [|discriminate].
    destruct (NewRecord fbs) as [[rec1 fbs1]|m]; [|discriminate].
    simpl bind. cbv iota beta.
    intros H. injection H as <- <-. simpl.
    repeat split; intros; try assumption; try discriminate; try congruence;
      auto.
Qed.

Lemma closes_releases (tr : list Event) (l : list Record_) :
  closes (tr ++ map RecordRelease l) = closes tr /\
  builderReleases (tr ++ map RecordRelease l) = builderReleases tr /\
  released (tr ++ map RecordRelease l) = released tr ++ l.
Proof.
  unfold closes, builderReleases, released.
  rewrite !filter_app, !length_app, flat_map_app.
  assert (H1 : filter isRowsClose (map RecordRelease l) = [])
    by (induction l; simpl; auto).
  assert (H2 : filter isBuilderRelease (map RecordRelease l) = [])
    by (induction l; simpl; auto).
  assert (H3 : flat_map (fun e => match e with RecordRelease rec => [rec] | _ => [] end)
                 (map RecordRelease l) = l)
    by (induction l as [|a l IHl]; simpl; [reflexivity | now rewrite IHl]).
  rewrite H1, H2, H3. simpl. rewrite !Nat.add_0_r. repeat split.
Qed.

(** A drained loop that stopped below the cap has exhausted the cursor. *)
Lemma scanLoop_short_exhausted (cur : list Row) :
  forall n dest b k rest dest' b',
    scanLoop cur n dest b = Ok (Drained k, (rest, dest', b')) ->
    k < maxBatchSize ->
    rest = [].
Proof.
  induction cur as [|row cur IH]; intros n dest b k rest dest' b' H Hk;
    rewrite scanLoop_unfold in H;
    destruct (n <? maxBatchSize)%nat eqn:E.
  - now injection H as _ <- _ _.
  - injection H as <- _ _ _. apply Nat.ltb_ge in E. lia.
  - destruct (snd (row dest)); [discriminate H|].
    destruct (appendRowTo float32_of_float64 (fst (row dest)) b) as [b1|m];
      [|discriminate H].
    simpl in H. eapply IH; eassumption.
  - injection H as <- _ _ _. apply Nat.ltb_ge in E. lia.
Qed.

(** X1: what the result of [Next] tells.  On a reader without a recorded
    error: when [Next] returns true a batch is exposed and no error is
    recorded; when it returns false, either the scan failed, and then an
    error is recorded and no batch is exposed, or the cursor is exhausted,
    and then no error is recorded and a batch is exposed all the same. *)
Theorem Next_result_meaning :
  forall (w w' : World) (v : bool),
    Err w = None ->
    Next w = Ok (v, w') ->
    (v = true -> Record' w' <> None /\ Err w' = None) /\
    (v = false ->
     (Err w' = None <-> Record' w' <> None) /\
     (Err w' = None ->
      exists cur', rows (rdr w') = Some cur' /\ pending cur' = [])).
Proof.
  intros w w' v He HN.
  destruct (Next_frame w w' v HN) as (_ & _ & _ & _ & Hnone & Hsome & _).
  split.
  - intros ->. destruct (Record' w') eqn:Er.
    + split; [discriminate|]. rewrite <- He. apply Hsome. discriminate.
    + destruct (Hnone eq_refl) as [_ Hv]. discriminate Hv.
  - intros ->. split.
    + split.
      * intros He' Hr. destruct (Hnone Hr) as [Hn _]. contradiction.
      * intros Hr. rewrite <- He. now apply Hsome.
    + intros He'. revert HN He'. unfold Next, Err.
      destruct (rows (rdr w)) as [cur|]; [|discriminate].
      destruct (scanLoop (pending cur) 0 (rowdest (rdr w)) (bldr (rdr w)))
        as [[exit [[rest dest] b1]]|m] eqn:E; [|discriminate].
      simpl bind. cbv iota beta.
      destruct exit as [n e|n].
      * destruct (schema (rdr w)); [|discriminate].
        intros H. injection H as <-. simpl. discriminate.
      * destruct b1 as [fbs|]; [|discriminate].
        destruct (NewRecord fbs) as [[rec1 fbs1]|m]; [|discriminate].
        simpl bind. cbv iota beta.
        intros H. injection H as Hn <-. simpl. intros _.
        eexists. split; [reflexivity|]. simpl.
        apply Nat.ltb_ge in Hn. assert (n = 0) by lia. subst n.
        eapply scanLoop_short_exhausted; [exact E|].
        unfold maxBatchSize. lia.
Qed.

(** X2: records are released exactly once.  Over any sequence of calls that
    returns, the records released so far followed by the record held are
    the records released and held before followed by the records that
    the calls of [Next] created, in order: each record is released by the
    following call of [Next] or by the teardown, and by nothing else. *)
Theorem records_released_once :
  forall (calls : list Call) (w w' : World),
    run calls w = Ok w' ->
    released (trace w') ++ held w'
    = released (trace w) ++ held w ++ created calls w.
Proof.
  induction calls as [|c calls IH]; intros w w' H.
  - injection H as <-. simpl. now rewrite app_nil_r.
  - destruct c; cbn [run created] in *.
    + destruct (Next w) as [[v w1]|m] eqn:E; [|discriminate H].
      simpl in H. rewrite (IH _ _ H).
      destruct (Next_frame w w1 v E) as (_ & _ & Ht & _).
      rewrite Ht. destruct (closes_releases (trace w) (held w)) as (_ & _ & ->).
      now rewrite <- !app_assoc.
    + rewrite (IH _ _ H). reflexivity.
    + destruct (Release w) as [w1|m] eqn:E; [|discriminate H].
      simpl in H. rewrite (IH _ _ H). clear IH H.
      revert E. unfold Release, held.
      destruct (wrap64 (refCount (rdr w) - 1) =? 0)%Z.
      * destruct (rows (rdr w)); [|discriminate].
        destruct (bldr (rdr w)); [|discriminate].
        intros H. injection H as <-. simpl.
        unfold released. rewrite flat_map_app. simpl.
        destruct (record (rdr w)); simpl;
          rewrite ?app_nil_r, <- ?app_assoc; reflexivity.
      * intros H. injection H as <-. reflexivity.
Qed.

Lemma closes_teardown (tr : list Event) (l : list Event) :
  filter isRowsClose l = [] -> filter isBuilderRelease l = [] ->
  closes (tr ++ [RowsClose; BuilderRelease] ++ l) = S (closes tr) /\
  builderReleases (tr ++ [RowsClose; BuilderRelease] ++ l) = S (builderReleases tr).
Proof.
  intros H1 H2. unfold closes, builderReleases.
  rewrite !filter_app, !length_app. simpl. rewrite H1, H2. simpl. lia.
Qed.

(** X3: the cursor is closed at most once.  Call a reader consistent
    when either it is live and neither [rows.Close] nor [bldr.Release]
    was called, or it is torn down, with the cursor, the builder, the
    schema, the record and the destinations nil, and each of the two was
    called exactly once.  A consistent reader is consistent after any
    sequence of calls of [Next], [Retain] and [Release] that returns, and
    the reader that a constructor returns is consistent. *)
Theorem run_consistent :
  forall (calls : list Call) (w w' : World),
    consistent w ->
    run calls w = Ok w' ->
    consistent w' /\
    (forall s cur, consistent (NewDuckDBBatchReaderWithSchema s cur)).
Proof.
  intros calls w w' Hc H. split.
  2:{ intros s cur. left. unfold live. simpl.
      repeat split; auto; discriminate. }
  revert w w' Hc H.
  induction calls as [|c calls IH]; intros w w' Hc H.
  - now injection H as <-.
  - destruct c; cbn [run] in H.
    + destruct (Next w) as [[v w1]|m] eqn:E; [|discriminate H].
      simpl in H. apply (IH _ _) in H; [exact H|]. clear IH H.
      destruct (Next_frame w w1 v E) as (_ & Hs & Ht & Hr & _ & _ & Hb).
      destruct Hc as [((Lr & Lb & Ls) & Hcl & Hbr) | ((Tr & _) & _)].
      * left. destruct (closes_releases (trace w) (held w)) as (C1 & C2 & _).
        rewrite Ht, C1, C2. repeat split; auto. congruence.
      * revert E. unfold Next. rewrite Tr. discriminate.
    + apply (IH _ _) in H; [exact H|]. clear IH H.
      destruct (Retain_onlyCount w) as [(H1 & H2 & H3 & H4 & H5 & H6 & H7) _].
      unfold consistent, live, tornDown in *. rewrite H1, H2, H3, H4, H6, H7.
      exact Hc.
    + destruct (Release w) as [w1|m] eqn:E; [|discriminate H].
      simpl in H. apply (IH _ _) in H; [exact H|]. clear IH H.
      destruct (Z.eq_dec (wrap64 (refCount (rdr w) - 1)) 0) as [Hz | Hnz].
      * destruct Hc as [(Hl & Hcl & Hbr) | ((Tr & _) & _)].
        -- destruct (Release_zero w Hl Hz)
             as (w2 & HR & _ & Hs & Hr & Hrec & Hb & Hd & _ & Ht).
           rewrite HR in E. injection E as <-.
           right. split; [unfold tornDown; auto|].
           rewrite Ht.
           destruct (closes_teardown (trace w)
                       (match record (rdr w) with
                        | Some rec => [RecordRelease rec]
                        | None => []
                        end)) as [C1 C2];
             try (destruct (record (rdr w)); reflexivity).
           rewrite C1, C2. lia.
        -- revert E. unfold Release.
           apply Z.eqb_eq in Hz. rewrite Hz, Tr. discriminate.
      * destruct (Release_nonzero w Hnz)
          as (w2 & HR & (H1 & H2 & H3 & H4 & H5 & H6 & H7) & _).
        rewrite HR in E. injection E as <-.
        unfold consistent, live, tornDown in *. rewrite H1, H2, H3, H4, H6, H7.
        exact Hc.
Qed.

(** X4: a reader that was torn down cannot be used.  After the call of
    [Release] that tears a live reader down, [Next] panics on the nil
    cursor; a further [Release] only lowers the count; and [Retain]
    followed by [Release], which brings the count to zero again, panics on
    the nil cursor instead of closing it a second time. *)
Theorem use_after_teardown :
  forall (w w' : World),
    live w ->
    wrap64 (refCount (rdr w) - 1) = 0%Z ->
    Release w = Ok w' ->
    Next w' = Panic "nil pointer dereference" /\
    Release (Retain w') = Panic "nil pointer dereference" /\
    (exists w'', Release w' = Ok w'' /\ refCount (rdr w'') = (-1)%Z /\
                 trace w'' = trace w') /\
    Err w' = Err w.
Proof.
  intros w w' Hl Hz HR.
  destruct (Release_zero w Hl Hz) as (w2 & HR2 & Hc & Hs & Hr & Hrec & Hb & Hd & He & Ht).
  rewrite HR2 in HR. injection HR as <-.
  split; [unfold Next; now rewrite Hr|].
  split; [unfold Release, Retain; simpl; rewrite Hc, Hr; reflexivity|].
  split; [|exact He].
  unfold Release. rewrite Hc. simpl.
  eexists. split; [reflexivity|]. split; reflexivity.
Qed.

Lemma wrap64_small (z : Z) :
  (- 2 ^ 63 <= z < 2 ^ 63)%Z -> wrap64 z = z.
Proof.
  intros Hz. unfold wrap64.
  change (2 ^ 64)%Z with 18446744073709551616%Z.
  change (2 ^ 63)%Z with 9223372036854775808%Z in *.
  rewrite Z.mod_small; lia.
Qed.

Lemma World_eta (w : World) :
  mkWorld
    (mkReader (refCount (rdr w)) (schema (rdr w)) (rows (rdr w)) (record (rdr w))
       (bldr (rdr w)) (err (rdr w)) (rowdest (rdr w)))
    (trace w) = w.
Proof. destruct w as [[] tr]. reflexivity. Qed.

Lemma Release_Retain (w : World) :
  (- 2 ^ 63 <= refCount (rdr w) < 2 ^ 63)%Z ->
  refCount (rdr w) <> 0%Z ->
  Release (Retain w) = Ok w.
Proof.
  intros Hr Hnz. unfold Release, Retain. cbn [rdr refCount trace].
  replace (wrap64 (refCount (rdr w) + 1) - 1)%Z
    with (wrap64 (refCount (rdr w) + 1) + -1)%Z by ring.
  rewrite wrap64_add.
  replace (refCount (rdr w) + 1 + -1)%Z with (refCount (rdr w)) by ring.
  rewrite (wrap64_small _ Hr).
  apply Z.eqb_neq in Hnz. rewrite Hnz.
  cbn [schema rows record bldr err rowdest]. now rewrite World_eta.
Qed.

(** X5: balanced calls of [Retain] and [Release] leave the reader as it
    was.  For a count [c > 0] and [n] with [c + n] in the range of the
    counter, [n] calls of [Retain] followed by [n] calls of [Release]
    return the very reader they started from, count included, and make no
    call on the cursor, the builder or the record. *)
Theorem releases_retains_roundtrip :
  forall (n : nat) (w : World),
    (0 < refCount (rdr w))%Z ->
    (refCount (rdr w) + Z.of_nat n < 2 ^ 63)%Z ->
    releases n (retains n w) = Ok w.
Proof.
  induction n as [|n IH]; intros w Hpos Hn; [reflexivity|].
  cbn [retains]. replace (S n) with (n + 1)%nat by lia.
  rewrite releases_app.
  assert (Hc : refCount (rdr (Retain w)) = (refCount (rdr w) + 1)%Z).
  { unfold Retain. cbn [rdr refCount]. apply wrap64_small.
    change (2 ^ 63)%Z with 9223372036854775808%Z in *. lia. }
  rewrite IH; [|rewrite Hc; lia|rewrite Hc; lia].
  simpl. rewrite Release_Retain; [reflexivity| |lia].
  change (2 ^ 63)%Z with 9223372036854775808%Z in *. lia.
Qed.

Lemma NewRecordBuilder_checkRows (s : arrow.Schema) :
  checkRows 0 0 (NewRecordBuilder s) = Ok 0 /\
  checkRows 0 0 (reset (NewRecordBuilder s)) = Ok 0 /\
  map cells (NewRecordBuilder s) = map (fun _ => []) s /\
  map cells (reset (NewRecordBuilder s)) = map (fun _ => []) s /\
  reset (reset (NewRecordBuilder s)) = reset (NewRecordBuilder s).
Proof.
  assert (H1 : Forall (fun fb => length (cells fb) = 0) (NewRecordBuilder s)).
  { unfold NewRecordBuilder. apply Forall_map, Forall_forall. reflexivity. }
  assert (H2 : Forall (fun fb => length (cells fb) = 0) (reset (NewRecordBuilder s))).
  { unfold reset. apply Forall_map, Forall_forall. reflexivity. }
  rewrite (checkRows_uniform 0 _ H1 0 0 (or_introl eq_refl)).
  rewrite (checkRows_uniform 0 _ H2 0 0 (or_introl eq_refl)).
  unfold reset, NewRecordBuilder. rewrite !map_map. simpl.
  repeat split; try reflexivity.
  - now destruct s.
  - now destruct s.
Qed.

(** X6: a cursor without rows.  On a reader fresh from the constructor,
    whatever its schema, over a cursor that yields no row: [Next] returns
    false, records no error, keeps the schema and exposes a batch of no
    rows with one empty column per field; a second call does the same,
    after releasing the first batch. *)
Theorem Next_empty_cursor :
  forall (s : arrow.Schema) (cols : error + list sql.ColumnType),
    exists w' w'' rec,
      Next (NewDuckDBBatchReaderWithSchema s (mkRows cols [])) = Ok (false, w') /\
      Record' w' = Some rec /\
      NumRows rec = 0 /\
      columns rec = map (fun _ => []) s /\
      Err w' = None /\
      Schema w' = Some s /\
      trace w' = [] /\
      Next w' = Ok (false, w'') /\
      Record' w'' = Some rec /\
      trace w'' = [RecordRelease rec].
Proof.
  intros s cols.
  destruct (NewRecordBuilder_checkRows s) as (C1 & C2 & M1 & M2 & R).
  unfold Next, NewDuckDBBatchReaderWithSchema, NewRecord.
  cbn [rdr rows record pending rowdest bldr trace schema err refCount ColumnTypes].
  rewrite scanLoop_unfold.
  change (0 <? maxBatchSize)%nat with true. cbv iota. simpl bind. cbv iota beta.
  rewrite C1. simpl bind. cbv iota beta.
  do 3 eexists.
  split; [reflexivity|].
  unfold Record', Err, Schema.
  cbn [rdr rows record pending rowdest bldr trace schema err refCount ColumnTypes
       NumRows columns].
  split; [reflexivity|]. split; [reflexivity|]. split; [exact M1|].
  split; [reflexivity|]. split; [reflexivity|]. split; [reflexivity|].
  rewrite scanLoop_unfold.
  change (0 <? maxBatchSize)%nat with true. cbv iota. simpl bind. cbv iota beta.
  fold (reset (NewRecordBuilder s)). rewrite C2. simpl bind. cbv iota beta.
  rewrite M1. fold (reset (NewRecordBuilder s)).
  fold (reset (reset (NewRecordBuilder s))). rewrite M2.
  split; [reflexivity|]. split; reflexivity.
Qed.

Lemma Forall2_extends_btype (k : nat) (a b : RecordBuilder) :
  Forall2 (extends k) a b -> map btype b = map btype a.
Proof.
  induction 1 as [|x y a b [Hxy _] Hab IH]; simpl; [reflexivity|].
  now rewrite Hxy, IH.
Qed.

Lemma serves_Next (s : arrow.Schema) (w w' : World) (v : bool) :
  serves s w -> Next w = Ok (v, w') -> serves s w'.
Proof.
  intros (Hs & (fbs & Hb & Ht) & Hrec). unfold Next.
  destruct (rows (rdr w)) as [cur|]; [|discriminate].
  destruct (scanLoop (pending cur) 0 (rowdest (rdr w)) (bldr (rdr w)))
    as [[exit [[rest dest] b1]]|m] eqn:E; [|discriminate].
  simpl bind. cbv iota beta.
  destruct (scanLoop_extends _ _ _ _ _ _ _ _ _ (Nat.le_0_l _) E) as [_ He].
  rewrite Hb in He. destruct b1 as [fbs1|]; simpl in He; [|contradiction].
  pose proof (Forall2_extends_btype _ _ _ He) as Hbt.
  destruct exit as [n e|n].
  - rewrite Hs. intros H. injection H as <- <-.
    unfold serves. cbn [rdr schema bldr record].
    split; [reflexivity|]. split; [|discriminate].
    exists fbs1. split; [reflexivity | congruence].
  - unfold NewRecord.
    destruct (checkRows 0 0 fbs1) as [n1|m]; [|discriminate].
    simpl bind. cbv iota beta.
    intros H. injection H as <- <-.
    unfold serves. cbn [rdr schema bldr record].
    split; [exact Hs|]. split.
    + eexists. split; [reflexivity|]. rewrite map_map. cbn [btype].
      rewrite <- Ht, <- Hbt. apply map_ext. reflexivity.
    + intros rec H. injection H as <-. cbn [columns].
      rewrite length_map, <- (length_map btype), Hbt, Ht.
      apply length_map.
Qed.

(** X17: the schema is constant and every batch has its columns.  On a
    reader as [NewDuckDBBatchReaderWithSchema] returns it for the schema
    [s], after any sequence of calls of [Next], [Retain] and [Release]
    that returns, either the reader is torn down, or [Schema] returns
    [s], the builder has one field builder per field of [s], of the type
    of the field, and the batch that [Record] returns, if any, has one
    column per field of [s]. *)
Theorem schema_constant :
  forall (s : arrow.Schema) (cur : Rows) (calls : list Call) (w' : World),
    run calls (NewDuckDBBatchReaderWithSchema s cur) = Ok w' ->
    serves s w' \/ tornDown w'.
Proof.
  intros s cur calls w'.
  assert (H0 : serves s (NewDuckDBBatchReaderWithSchema s cur)
               \/ tornDown (NewDuckDBBatchReaderWithSchema s cur)).
  { left. unfold serves, NewDuckDBBatchReaderWithSchema. cbn [rdr schema bldr record].
    split; [reflexivity|]. split; [|discriminate].
    eexists. split; [reflexivity|]. unfold NewRecordBuilder. now rewrite map_map. }
  revert H0. generalize (NewDuckDBBatchReaderWithSchema s cur) as w.
  induction calls as [|c calls IH]; intros w Hw H.
  - injection H as <-. exact Hw.
  - destruct c; cbn [run] in H.
    + destruct (Next w) as [[v w1]|m] eqn:EN; [|discriminate H].
      simpl in H. apply (IH w1); [|exact H].
      destruct Hw as [Hw | (Hr & _)].
      * left. eapply serves_Next; eassumption.
      * unfold Next in EN. rewrite Hr in EN. discriminate EN.
    + apply (IH (Retain w)); [|exact H].
      destruct Hw as [Hw | Hw]; [left | right]; exact Hw.
    + destruct (Release w) as [w1|m] eqn:ER; [|discriminate H].
      simpl in H. apply (IH w1); [|exact H].
      unfold Release in ER.
      destruct (wrap64 (refCount (rdr w) - 1) =? 0)%Z.
      * destruct (rows (rdr w)); [|discriminate ER].
        destruct (bldr (rdr w)); [|discriminate ER].
        injection ER as <-. right. unfold tornDown. cbn. repeat split.
      * injection ER as <-.
        destruct Hw as [Hw | Hw]; [left | right]; exact Hw.
Qed.

End Lifecycle.

(** ** Inferred schemas *)

Lemma getArrowTypeFromString_range (name : string) (t : arrow.DataType) :
  getArrowTypeFromString name = Ok t ->
  In t canonicalTypes /\ t <> duckDBDenseUnion /\
  (name <> ""%string -> t <> arrow.NullType).
Proof.
  unfold getArrowTypeFromString.
  destruct (String.eqb (strings.ToLower name) "") eqn:E.
  - intros H. injection H as <-.
    split; [simpl; auto 20|]. split; [discriminate|].
    intros Hne. rewrite (ToLower_nonempty _ Hne) in E. discriminate E.
  - repeat match goal with
           | |- context [if ?c then _ else _] => destruct c
           end;
      intros H; try discriminate H; injection H as <-;
      (split; [simpl; auto 20 | split; [discriminate | intros _; discriminate]]).
Qed.

Lemma getArrowType_canonical (c : sql.ColumnType) (t : arrow.DataType) :
  getArrowType c = Ok t ->
  In t canonicalTypes /\
  (sql.DatabaseTypeName c <> ""%string ->
   t <> duckDBDenseUnion /\ t <> arrow.NullType).
Proof.
  intros H.
  destruct (string_dec (sql.DatabaseTypeName c) "") as [He | Hne].
  - split; [|congruence].
    revert H. unfold getArrowType. rewrite He. simpl.
    destruct (sql.ScanType c) as [k|];
      [destruct k|]; intros H; try discriminate H;
      injection H as <-; simpl; auto 20.
  - rewrite (getArrowType_declared c Hne) in H.
    destruct (getArrowTypeFromString_range _ _ H) as (H1 & H2 & H3).
    split; [exact H1|]. intros _. split; [exact H2 | now apply H3].
Qed.

Lemma canonical_not_uint8 (t : arrow.DataType) :
  In t canonicalTypes ->
  arrow.ID t <> arrow.UINT8 /\ arrow.ID t <> arrow.SPARSE_UNION.
Proof.
  intros Hin. simpl in Hin.
  repeat (destruct Hin as [<- | Hin]; [split; discriminate|]). contradiction.
Qed.

(** X7: the types an inferred schema can have.  Whatever the column,
    [getArrowType], when it returns, returns one of the fourteen canonical
    types, never the uint8 or the sparse union type that the constructors
    also have cases for; and for a column with a declared type name it
    returns neither the union nor the null type. *)
Theorem getArrowType_range :
  forall (c : sql.ColumnType) (t : arrow.DataType),
    getArrowType c = Ok t ->
    In t canonicalTypes /\
    arrow.ID t <> arrow.UINT8 /\
    arrow.ID t <> arrow.SPARSE_UNION /\
    (sql.DatabaseTypeName c <> ""%string ->
     t <> duckDBDenseUnion /\ t <> arrow.NullType).
Proof.
  intros c t H.
  destruct (getArrowType_canonical c t H) as [Hin Hd].
  destruct (canonical_not_uint8 t Hin) as [H8 Hs].
  repeat split; try assumption; now apply Hd.
Qed.

Lemma getArrowType_range_witness :
  In arrow.Int16 canonicalTypes /\ arrow.Int16 <> arrow.NullType.
Proof.
  destruct (getArrowType_range
              (sql.mkColumnType "n" "SmallInt" (false, true) None) arrow.Int16 eq_refl)
    as (H1 & _ & _ & H4).
  split; [exact H1|]. apply H4. discriminate.
Defined.

Lemma columnFields_nth (md : string -> arrow.Metadata) (cols : list sql.ColumnType) :
  forall i fs,
    columnFields md i cols = Ok fs ->
    length fs = length cols /\
    forall j c, nth_error cols j = Some c ->
                exists f, nth_error fs j = Some f /\ fieldOf md (i + j) c f.
Proof.
  induction cols as [|c0 cols IH]; intros i fs H.
  - injection H as <-. split; [reflexivity|]. intros [|j] c Hc; discriminate Hc.
  - cbn [columnFields] in H.
    destruct (getArrowType c0) as [t|m] eqn:Et; [|discriminate H].
    simpl in H.
    destruct (columnFields md (S i) cols) as [fs'|m] eqn:Ef; [|discriminate H].
    simpl in H. injection H as <-.
    destruct (IH _ _ Ef) as [Hlen Hnth].
    split; [simpl; now rewrite Hlen|].
    intros [|j] c Hc.
    + injection Hc as <-. eexists. split; [reflexivity|].
      unfold fieldOf. simpl. rewrite Nat.add_0_r. repeat split. exact Et.
    + simpl in Hc. destruct (Hnth j c Hc) as (f & Hf & Hfo).
      exists f. split; [exact Hf|].
      now replace (i + S j) with (S i + j) by lia.
Qed.

Lemma columnFields_total (md : string -> arrow.Metadata) (cols : list sql.ColumnType) :
  Forall (fun c => exists t, getArrowType c = Ok t) cols ->
  forall i, exists fs, columnFields md i cols = Ok fs.
Proof.
  induction 1 as [|c cols [t Ht] Hcols IH]; intros i.
  - now exists [].
  - cbn [columnFields]. rewrite Ht. simpl.
    destruct (IH (S i)) as [fs ->]. simpl. eexists. reflexivity.
Qed.

Lemma columnFields_panic_exists (md : string -> arrow.Metadata)
    (cols : list sql.ColumnType) :
  forall i m,
    columnFields md i cols = Panic m ->
    Exists (fun c => exists msg, getArrowType c = Panic msg) cols.
Proof.
  induction cols as [|c0 cols IH]; intros i m H; [discriminate H|].
  cbn [columnFields] in H.
  destruct (getArrowType c0) as [t|m0] eqn:Et; [|left; eauto].
  simpl in H.
  destruct (columnFields md (S i) cols) as [fs'|m1] eqn:Ef; [discriminate H|].
  right. eapply IH; exact Ef.
Qed.

(** X8: when the inferring constructor succeeds, and with what.  Over a
    cursor whose column metadata is available, [NewDuckDBBatchReader]
    returns a reader exactly when [getArrowType] maps every column, and
    panics otherwise.  The reader then has one field per column, in
    order, with the mapped type, the nullability the driver reports, the
    metadata of the declared type name and the name of the column (with
    the index appended for the placeholder name), and it has count 1, no
    error, no record, and the cursor it was given. *)
Theorem NewDuckDBBatchReader_succeeds_iff :
  forall (md : string -> arrow.Metadata) (cur : Rows) (cols : list sql.ColumnType),
    ColumnTypes cur = inr cols ->
    ((exists w, NewDuckDBBatchReader md cur = Ok (Constructed w)) <->
     Forall (fun c => exists t, getArrowType c = Ok t) cols) /\
    ((exists msg, NewDuckDBBatchReader md cur = Panic msg) <->
     Exists (fun c => exists msg, getArrowType c = Panic msg) cols) /\
    (forall w,
       NewDuckDBBatchReader md cur = Ok (Constructed w) ->
       exists fields,
         schema (rdr w) = Some fields /\
         length fields = length cols /\
         (forall j c, nth_error cols j = Some c ->
                      exists f, nth_error fields j = Some f /\ fieldOf md j c f) /\
         refCount (rdr w) = 1%Z /\ err (rdr w) = None /\ record (rdr w) = None /\
         rows (rdr w) = Some cur /\ trace w = []).
Proof.
  intros md cur cols Hcols.
  assert (Hsup : forall c : sql.ColumnType,
             (exists t, getArrowType c = Ok t) \/ (exists msg, getArrowType c = Panic msg)).
  { intros c. destruct (getArrowType c); eauto. }
  assert (Hok : forall i fs, columnFields md i cols = Ok fs ->
                  Forall (fun c => exists t, getArrowType c = Ok t) cols).
  { intros i fs H. destruct (columnFields_nth md cols i fs H) as [_ Hnth].
    apply Forall_forall. intros c Hin.
    destruct (In_nth_error _ _ Hin) as [j Hj].
    destruct (Hnth j c Hj) as (f & _ & Ht & _). eauto. }
  unfold NewDuckDBBatchReader. rewrite Hcols.
  split; [|split].
  - split.
    + intros [w H].
      destruct (columnFields md 0 cols) as [fs|m] eqn:E; [|discriminate H].
      eapply Hok; exact E.
    + intros H. destruct (columnFields_total md cols H 0) as [fs ->].
      simpl. eexists. reflexivity.
  - split.
    + intros [msg H].
      destruct (columnFields md 0 cols) as [fs|m] eqn:E; [discriminate H|].
      eapply columnFields_panic_exists; exact E.
    + intros Hex. apply Exists_exists in Hex as (c & Hin & [msg Hc]).
      destruct (columnFields md 0 cols) as [fs|m] eqn:E; [|simpl; eauto].
      pose proof (Hok _ _ E) as Hall. rewrite Forall_forall in Hall.
      destruct (Hall c Hin) as [t Ht]. congruence.
  - intros w H.
    destruct (columnFields md 0 cols) as [fs|m] eqn:E; [|discriminate H].
    simpl in H. injection H as <-.
    destruct (columnFields_nth md cols 0 fs E) as [Hlen Hnth].
    exists fs. cbn [rdr schema refCount err record trace rows].
    repeat split; auto.
Qed.

Lemma NewDuckDBBatchReader_succeeds_iff_witness :
  exists w,
    NewDuckDBBatchReader Sample.getColumnMetadata
      (Sample.cursor [sql.mkColumnType "n" "INTEGER" (true, true) None] [])
    = Ok (Constructed w).
Proof.
  apply (proj1 (NewDuckDBBatchReader_succeeds_iff Sample.getColumnMetadata
                  (Sample.cursor [sql.mkColumnType "n" "INTEGER" (true, true) None] [])
                  [sql.mkColumnType "n" "INTEGER" (true, true) None] eq_refl)).
  constructor; [|constructor]. exists arrow.Int32. reflexivity.
Defined.

Lemma Itoa_inj (i j : nat) : Itoa i = Itoa j -> i = j.
Proof.
  unfold Itoa. intros H.
  apply Unsigned.to_uint_inj.
  assert (K : Some (Nat.to_uint i) = Some (Nat.to_uint j))
    by (rewrite <- !NilEmpty.usu; now rewrite H).
  now injection K.
Qed.

(** X9: placeholder columns get distinct names.  In the schema that
    [NewDuckDBBatchReader] infers, a column that the driver names "?" is
    named "?:" followed by its index in decimal, so that two such
    columns at different indices never share a name; any other column
    keeps its name. *)
Theorem placeholder_names_distinct :
  forall (md : string -> arrow.Metadata) (cur : Rows) (cols : list sql.ColumnType)
         (w : World) (fields : arrow.Schema) (j k : nat)
         (cj ck : sql.ColumnType) (fj fk : arrow.Field),
    NewDuckDBBatchReader md cur = Ok (Constructed w) ->
    ColumnTypes cur = inr cols ->
    schema (rdr w) = Some fields ->
    nth_error cols j = Some cj -> nth_error fields j = Some fj ->
    nth_error cols k = Some ck -> nth_error fields k = Some fk ->
    (sql.Name cj = "?"%string -> arrow.Name fj = ("?:" ++ Itoa j)%string) /\
    (sql.Name cj <> "?"%string -> arrow.Name fj = sql.Name cj) /\
    (sql.Name cj = "?"%string -> sql.Name ck = "?"%string -> j <> k ->
     arrow.Name fj <> arrow.Name fk).
Proof.
  intros md cur cols w fields j k cj ck fj fk HN Hcols Hs Hcj Hfj Hck Hfk.
  unfold NewDuckDBBatchReader in HN. rewrite Hcols in HN.
  destruct (columnFields md 0 cols) as [fs|m] eqn:E; [|discriminate HN].
  simpl in HN. injection HN as <-. simpl in Hs. injection Hs as <-.
  destruct (columnFields_nth md cols 0 fs E) as [_ Hnth].
  destruct (Hnth j cj Hcj) as (f1 & Hf1 & _ & _ & _ & Hn1).
  destruct (Hnth k ck Hck) as (f2 & Hf2 & _ & _ & _ & Hn2).
  rewrite Hfj in Hf1. injection Hf1 as <-.
  rewrite Hfk in Hf2. injection Hf2 as <-.
  simpl in Hn1, Hn2.
  assert (A : sql.Name cj = "?"%string -> arrow.Name fj = ("?:" ++ Itoa j)%string).
  { intros Hq. rewrite Hn1, Hq. reflexivity. }
  split; [exact A|]. split.
  - intros Hq. rewrite Hn1. apply String.eqb_neq in Hq. now rewrite Hq.
  - intros Hqj Hqk Hjk Heq.
    rewrite (A Hqj) in Heq. rewrite Hn2, Hqk in Heq. simpl in Heq.
    injection Heq as Heq. apply Itoa_inj in Heq. contradiction.
Qed.

Lemma placeholder_names_distinct_witness :
  exists w fields,
    NewDuckDBBatchReader Sample.getColumnMetadata
      (Sample.cursor [sql.mkColumnType "?" "INTEGER" (true, true) None;
                      sql.mkColumnType "?" "INTEGER" (true, true) None] [])
    = Ok (Constructed w) /\
    schema (rdr w) = Some fields /\
    map arrow.Name fields = ["?:0"; "?:1"]%string.
Proof.
  do 2 eexists. split; [reflexivity|]. split; [reflexivity|].
  pose (c := sql.mkColumnType "?" "INTEGER" (true, true) None).
  pose (f0 := arrow.mkField "?:0" arrow.Int32 true
                (Sample.getColumnMetadata "INTEGER")).
  pose (f1 := arrow.mkField "?:1" arrow.Int32 true
                (Sample.getColumnMetadata "INTEGER")).
  destruct (placeholder_names_distinct Sample.getColumnMetadata
              (Sample.cursor [c; c] []) [c; c] _ [f0; f1] 0 1 c c f0 f1
              eq_refl eq_refl eq_refl eq_refl eq_refl eq_refl eq_refl)
    as (H0 & _ & _).
  reflexivity.
Defined.

Lemma unallocated_iff (id : arrow.TypeID) (nullable : bool) :
  newRowDest id nullable = None <-> ~ In id allocatedIDs.
Proof.
  split.
  - intros H Hin. simpl in Hin.
    repeat (destruct Hin as [<- | Hin];
            [destruct nullable; discriminate H|]).
    contradiction.
  - intros Hn. destruct id; try reflexivity;
      exfalso; apply Hn; simpl; auto 20.
Qed.

Lemma unallocated_canonical (t : arrow.DataType) (nullable : bool) :
  In t canonicalTypes ->
  (newRowDest (arrow.ID t) nullable = None <-> In t unallocatedTypes).
Proof.
  intros Hin. simpl in Hin.
  repeat (destruct Hin as [Hin | Hin];
          [subst t; destruct nullable; simpl; split; intros H;
           solve [ discriminate H | reflexivity | tauto
                 | repeat (destruct H as [H | H]; try discriminate H);
                   contradiction ]|]).
  contradiction.
Qed.

(** X10: the columns that an inferred reader cannot scan.  For every
    column of a reader that [NewDuckDBBatchReader] returns, the
    destination is nil exactly when the column is mapped to int16,
    boolean, date32, time32, timestamp or the null type; so it is for a
    column declared smallint, date, time, timestamp or boolean, in any
    letter case. *)
Theorem inferred_nil_destinations :
  forall (md : string -> arrow.Metadata) (cur : Rows) (cols : list sql.ColumnType)
         (w : World) (j : nat) (c : sql.ColumnType),
    NewDuckDBBatchReader md cur = Ok (Constructed w) ->
    ColumnTypes cur = inr cols ->
    nth_error cols j = Some c ->
    exists t,
      getArrowType c = Ok t /\
      (nth_error (rowdest (rdr w)) j = Some None <-> In t unallocatedTypes) /\
      (oneOf (strings.ToLower (sql.DatabaseTypeName c)) unallocatedNames = true ->
       nth_error (rowdest (rdr w)) j = Some None).
Proof.
  intros md cur cols w j c HN Hcols Hc.
  unfold NewDuckDBBatchReader in HN. rewrite Hcols in HN.
  destruct (columnFields md 0 cols) as [fs|m] eqn:E; [|discriminate HN].
  simpl in HN. injection HN as <-. cbn [rdr rowdest].
  destruct (columnFields_nth md cols 0 fs E) as [_ Hnth].
  destruct (Hnth j c Hc) as (f & Hf & Ht & _).
  exists (arrow.Typ f). split; [exact Ht|].
  unfold allocate. rewrite (map_nth_error _ _ _ Hf).
  assert (Hiff : Some (newRowDest (arrow.ID (arrow.Typ f)) (arrow.Nullable f)) = Some None
                 <-> In (arrow.Typ f) unallocatedTypes).
  { destruct (getArrowType_canonical c _ Ht) as (Hin & _).
    rewrite <- (unallocated_canonical _ (arrow.Nullable f) Hin).
    split; [now intros H; injection H | now intros ->]. }
  split; [exact Hiff|].
  intros Hname. apply Hiff.
  assert (Hne : sql.DatabaseTypeName c <> ""%string).
  { intros He. rewrite He in Hname. discriminate Hname. }
  rewrite (getArrowType_declared c Hne) in Ht.
  unfold getArrowTypeFromString in Ht.
  unfold oneOf, unallocatedNames in Hname. cbn [existsb] in Hname.
  repeat (apply orb_true_iff in Hname; destruct Hname as [Hname | Hname]);
    try discriminate Hname;
    apply String.eqb_eq in Hname; rewrite Hname in Ht;
    injection Ht as <-; simpl; tauto.
Qed.

Lemma inferred_nil_destinations_witness :
  exists w,
    NewDuckDBBatchReader Sample.getColumnMetadata
      (Sample.cursor [sql.mkColumnType "ok" "Boolean" (true, true) None] [])
    = Ok (Constructed w) /\
    nth_error (rowdest (rdr w)) 0 = Some None.
Proof.
  eexists. split; [reflexivity|].
  destruct (inferred_nil_destinations Sample.getColumnMetadata
              (Sample.cursor [sql.mkColumnType "ok" "Boolean" (true, true) None] [])
              [sql.mkColumnType "ok" "Boolean" (true, true) None] _ 0
              (sql.mkColumnType "ok" "Boolean" (true, true) None)
              eq_refl eq_refl eq_refl)
    as (t & _ & _ & H).
  apply H. reflexivity.
Defined.

(** ** Rows into columns *)

Section Batches.

Variable Schema_String : arrow.Schema -> string.
Variable anypb_New : string -> bool.
Variable float32_of_float64 : Z -> Z.

Local Abbreviation appendValue := (appendValue float32_of_float64).
Local Abbreviation appendRow := (appendRow float32_of_float64).
Local Abbreviation appendRowTo := (appendRowTo float32_of_float64).
Local Abbreviation scanLoop := (scanLoop float32_of_float64).
Local Abbreviation Next := (Next Schema_String anypb_New float32_of_float64).
Local Abbreviation cellOf := (cellOf float32_of_float64).
Local Abbreviation appendCells := (appendCells float32_of_float64).
Local Abbreviation collect := (collect Schema_String anypb_New float32_of_float64).
Local Abbreviation cellsOfColumn := (cellsOfColumn float32_of_float64).

Lemma appendValue_cellOf (fb : FieldBuilder) (d : option RowDest) :
  compatible d fb = true ->
  appendValue fb d = Ok (append fb (cellOf (arrow.ID (btype fb)) d)).
Proof.
  unfold compatible, appendValue, cellOf, assertBuilder, AppendNull, sliceBytes, bind.
  intros H.
  destruct d as [[]|]; try discriminate H;
    try (rewrite H; try destruct (Valid n); reflexivity).
  - apply orb_true_iff in H as [H | H];
      apply arrow.internal_TypeID_dec_bl in H; rewrite H; reflexivity.
  - destruct (Valid n); [|reflexivity]. simpl.
    apply orb_true_iff in H as [H | H];
      apply arrow.internal_TypeID_dec_bl in H; rewrite H; reflexivity.
  - destruct target; [|discriminate H]. rewrite H. reflexivity.
Qed.

Lemma appendRow_appendCells (dest : list (option RowDest)) :
  forall pre suf,
    Forall2 (fun d fb => compatible d fb = true) dest suf ->
    appendRow (length pre) dest (pre ++ suf) = Ok (pre ++ appendCells suf dest).
Proof.
  induction dest as [|v dest IH]; intros pre suf H; inversion H; subst.
  - reflexivity.
  - rename y into fb, l' into suf0.
    cbn [appendRow appendCells]. unfold Field.
    rewrite nth_error_middle. simpl.
    rewrite (appendValue_cellOf fb v H2). simpl.
    rewrite replaceAt_middle.
    replace (S (length pre))
      with (length (pre ++ [append fb (cellOf (arrow.ID (btype fb)) v)]))
      by (rewrite length_app; simpl; lia).
    replace (pre ++ append fb (cellOf (arrow.ID (btype fb)) v) :: suf0)
      with ((pre ++ [append fb (cellOf (arrow.ID (btype fb)) v)]) ++ suf0)
      by (now rewrite <- app_assoc).
    rewrite (IH _ _ H4). now rewrite <- app_assoc.
Qed.

Lemma appendRow_pointwise (dest : list (option RowDest)) :
  forall pre suf b',
    appendRow (length pre) dest (pre ++ suf) = Ok b' ->
    exists suf',
      b' = pre ++ suf' /\
      length suf' = length suf /\
      length dest <= length suf /\
      (forall i v, nth_error dest i = Some v ->
         exists fb fb', nth_error suf i = Some fb /\
                        appendValue fb v = Ok fb' /\
                        nth_error suf' i = Some fb') /\
      (forall i, length dest <= i -> nth_error suf' i = nth_error suf i).
Proof.
  induction dest as [|v dest IH]; intros pre suf b' H.
  - injection H as <-. exists suf. repeat split; auto.
    + simpl. lia.
    + intros [|i] v Hv; discriminate Hv.
  - cbn [appendRow] in H. unfold Field in H.
    rewrite nth_error_middle in H.
    destruct suf as [|fb suf]; [discriminate H|]. simpl in H.
    destruct (appendValue fb v) as [fb1|m] eqn:E; [|discriminate H].
    simpl in H. rewrite replaceAt_middle in H.
    replace (S (length pre)) with (length (pre ++ [fb1])) in H
      by (rewrite length_app; simpl; lia).
    replace (pre ++ fb1 :: suf) with ((pre ++ [fb1]) ++ suf) in H
      by (now rewrite <- app_assoc).
    destruct (IH _ _ _ H) as (suf' & -> & Hlen & Hle & Hin & Hout).
    exists (fb1 :: suf'). split; [now rewrite <- app_assoc|].
    split; [simpl; lia|]. split; [simpl; lia|]. split.
    + intros [|i] x Hx.
      * injection Hx as <-. exists fb, fb1. auto.
      * simpl in Hx. destruct (Hin i x Hx) as (f & f' & H1 & H2 & H3).
        exists f, f'. auto.
    + intros [|i] Hi; [simpl in Hi; lia|]. simpl. apply Hout. simpl in Hi. lia.
Qed.

(** X11: the row loop works position by position.  When the append of a
    row returns, there were no more destinations than builders, the
    builders are as many as before, builder [i] is the result of
    appending the value of destination [i] to builder [i] as it was, and
    a builder without a destination is untouched; with more destinations
    than builders the append panics. *)
Theorem appendRow_positional :
  forall (dest : list (option RowDest)) (b b' : RecordBuilder),
    appendRow 0 dest b = Ok b' ->
    length dest <= length b /\
    length b' = length b /\
    (forall i v, nth_error dest i = Some v ->
       exists fb fb', nth_error b i = Some fb /\
                      appendValue fb v = Ok fb' /\
                      nth_error b' i = Some fb') /\
    (forall i, length dest <= i -> nth_error b' i = nth_error b i) /\
    (forall b0, length b0 < length dest ->
                exists msg, appendRow 0 dest b0 = Panic msg).
Proof.
  intros dest b b' H.
  destruct (appendRow_pointwise dest [] b b' H) as (suf' & -> & Hlen & Hle & Hin & Hout).
  simpl. repeat split; auto.
  intros b0 Hb0. destruct (appendRow 0 dest b0) as [b1|m] eqn:E; [|eauto].
  destruct (appendRow_pointwise dest [] b0 b1 E) as (_ & _ & _ & Hle0 & _). lia.
Qed.

Lemma appendCells_length (b : RecordBuilder) :
  forall d, length (appendCells b d) = length b.
Proof.
  induction b as [|fb b IH]; intros [|x d]; simpl; auto.
Qed.

Lemma appendCells_nth (b : RecordBuilder) :
  forall d j fb,
    length d = length b ->
    nth_error b j = Some fb ->
    nth_error (appendCells b d) j
    = Some (append fb (cellOf (arrow.ID (btype fb)) (nth j d None))).
Proof.
  induction b as [|fb0 b IH]; intros d j fb Hlen Hj.
  - destruct j; discriminate Hj.
  - destruct d as [|x d]; [discriminate Hlen|].
    destruct j as [|j]; simpl in *.
    + now injection Hj as <-.
    + apply IH; [lia | exact Hj].
Qed.

Lemma fold_appendCells_length (ds : list (list (option RowDest))) :
  forall b, length (fold_left appendCells ds b) = length b.
Proof.
  induction ds as [|d ds IH]; intros b; simpl; [reflexivity|].
  now rewrite IH, appendCells_length.
Qed.

Lemma fold_appendCells_nth (ds : list (list (option RowDest))) :
  forall b j fb,
    Forall (fun d => length d = length b) ds ->
    nth_error b j = Some fb ->
    nth_error (fold_left appendCells ds b) j
    = Some (mkFieldBuilder (btype fb)
              (cells fb ++ map (fun d => cellOf (arrow.ID (btype fb)) (nth j d None)) ds)).
Proof.
  induction ds as [|d ds IH]; intros b j fb Hlen Hj.
  - simpl. rewrite app_nil_r. now destruct fb.
  - inversion Hlen as [|? ? Hd Hds]; subst. simpl.
    rewrite (IH (appendCells b d) j
               (append fb (cellOf (arrow.ID (btype fb)) (nth j d None)))).
    + simpl. now rewrite <- app_assoc.
    + eapply Forall_impl; [|exact Hds]. simpl. intros a Ha.
      now rewrite appendCells_length.
    + now apply appendCells_nth.
Qed.

Lemma dests_shapes (tmpl : list (option RowDest)) (rs : list Row) :
  forall dest,
    Forall (wellBehaved tmpl) rs ->
    Forall2 sameShape tmpl dest ->
    Forall (fun d => length d = length tmpl) (dests rs dest) /\
    Forall2 sameShape tmpl (destAfter rs dest) /\
    length (dests rs dest) = length rs.
Proof.
  induction rs as [|row rs IH]; intros dest Hw Ht.
  - simpl. repeat split; auto.
  - inversion Hw as [|? ? Hrow Hrs]; subst.
    destruct (Hrow dest Ht) as [Hs _].
    assert (Ht1 : Forall2 sameShape tmpl (fst (row dest)))
      by (eapply Forall2_sameShape_trans; eassumption).
    destruct (IH _ Hrs Ht1) as (H1 & H2 & H3).
    simpl. repeat split; auto.
    constructor; [|exact H1].
    symmetry. eapply Forall2_length; exact Ht1.
Qed.

Lemma dests_app (l1 l2 : list Row) :
  forall dest,
    dests (l1 ++ l2) dest = dests l1 dest ++ dests l2 (destAfter l1 dest).
Proof.
  induction l1 as [|row l1 IH]; intros dest; simpl; [reflexivity|].
  unfold destAfter. simpl. now rewrite IH.
Qed.

(** Over well-behaved rows and aligned builders, the state in which the
    loop stops, in closed form. *)
Lemma scanLoop_cells (tmpl : list (option RowDest)) (cur : list Row) :
  forall n dest fbs L m,
    Forall (wellBehaved tmpl) cur ->
    Forall2 sameShape tmpl dest ->
    aligned L dest fbs ->
    m = Nat.min (length cur) (maxBatchSize - n) ->
    scanLoop cur n dest (Some fbs)
    = Ok (Drained (n + m),
          (skipn m cur, destAfter (firstn m cur) dest,
           Some (fold_left appendCells (dests (firstn m cur) dest) fbs))).
Proof.
  induction cur as [|row cur IH]; intros n dest fbs L m Hw Ht Ha Hm;
    rewrite scanLoop_unfold;
    destruct (n <? maxBatchSize)%nat eqn:E.
  - simpl in Hm. subst m. now rewrite !Nat.add_0_r.
  - simpl in Hm. subst m. now rewrite !Nat.add_0_r.
  - apply Nat.ltb_lt in E.
    inversion Hw as [|? ? Hrow Hcur]; subst.
    destruct (Hrow dest Ht) as [Hshape Hok].
    rewrite Hok.
    assert (Ht1 : Forall2 sameShape tmpl (fst (row dest)))
      by (eapply Forall2_sameShape_trans; eassumption).
    assert (Ha1 : aligned L (fst (row dest)) fbs)
      by (eapply aligned_sameShape; [apply Hshape | exact Ha]).
    destruct (appendRowTo_aligned float32_of_float64 L _ _ Ha1) as (fbs1 & Hrow1 & Ha2).
    assert (Hfbs1 : fbs1 = appendCells fbs (fst (row dest))).
    { pose proof (appendRow_appendCells _ [] fbs (proj1 Ha1)) as K.
      simpl in K. unfold appendRowTo in Hrow1. rewrite K in Hrow1.
      simpl in Hrow1. now injection Hrow1. }
    rewrite Hrow1. simpl bind. subst fbs1.
    rewrite (IH (S n) (fst (row dest)) _ (S L)
               (Nat.min (length cur) (maxBatchSize - S n)) Hcur Ht1 Ha2 eq_refl).
    replace (Nat.min (length (row :: cur)) (maxBatchSize - n))
      with (S (Nat.min (length cur) (maxBatchSize - S n)))
      by (simpl length; lia).
    cbn [skipn firstn dests]. unfold destAfter. cbn [fold_left].
    now replace (n + S (Nat.min (length cur) (maxBatchSize - S n)))
      with (S n + Nat.min (length cur) (maxBatchSize - S n)) by lia.
  - apply Nat.ltb_ge in E.
    replace m with 0 by lia. now rewrite !Nat.add_0_r.
Qed.

Lemma appendCells_btype (b : RecordBuilder) :
  forall d, map btype (appendCells b d) = map btype b.
Proof.
  induction b as [|fb b IH]; intros [|x d]; simpl; auto.
  now rewrite IH.
Qed.

Lemma fold_appendCells_btype (ds : list (list (option RowDest))) :
  forall b, map btype (fold_left appendCells ds b) = map btype b.
Proof.
  induction ds as [|d ds IH]; intros b; simpl; [reflexivity|].
  now rewrite IH, appendCells_btype.
Qed.

Lemma Forall_firstn {A : Type} (P : A -> Prop) (n : nat) (l : list A) :
  Forall P l -> Forall P (firstn n l).
Proof.
  intros H. rewrite <- (firstn_skipn n l) in H.
  apply Forall_app in H. tauto.
Qed.

(** One call of [Next] on a poised reader, in closed form. *)
Lemma Next_poised (types : list arrow.DataType) (tmpl : list (option RowDest))
    (pend : list Row) (w : World) (m : nat) :
  poised types tmpl pend w ->
  Forall (wellBehaved tmpl) pend ->
  m = Nat.min (length pend) maxBatchSize ->
  exists w' rec,
    Next w = Ok ((0 <? m)%nat, w') /\
    held w' = [rec] /\
    NumRows rec = m /\
    length (columns rec) = length types /\
    (forall j t, nth_error types j = Some t ->
       column j rec
       = cellsOfColumn t j (dests (firstn m pend) (rowdest (rdr w)))) /\
    poised types tmpl (skipn m pend) w' /\
    rowdest (rdr w') = destAfter (firstn m pend) (rowdest (rdr w)) /\
    Err w' = Err w /\
    Schema w' = Schema w.
Proof.
  intros (cur & fbs & Hr & Hp & Hb & Ha & Ht & Hty & Hne) Hw Hm.
  assert (Hm' : m = Nat.min (length pend) (maxBatchSize - 0))
    by (now rewrite Nat.sub_0_r).
  pose proof (scanLoop_cells tmpl pend 0 (rowdest (rdr w)) fbs 0 m Hw Ht Ha Hm')
    as Hrun.
  destruct (scanLoop_wellBehaved float32_of_float64 tmpl pend 0 (rowdest (rdr w))
              fbs 0 m Hw Ht Ha Hm') as (dest' & fbs' & Hrun' & Ht' & Hal).
  rewrite Hrun in Hrun'. injection Hrun' as <- <-.
  rewrite !Nat.add_0_l in *.
  set (ds := dests (firstn m pend) (rowdest (rdr w))) in *.
  set (fbsF := fold_left appendCells ds fbs) in *.
  assert (HlenF : length fbsF = length types).
  { unfold fbsF. rewrite fold_appendCells_length, <- Hty. now rewrite length_map. }
  destruct (NewRecord_aligned m _ fbsF Hal) as (Hnew & Hal0 & Hcols).
  { intros HF. rewrite HF in HlenF. destruct types; [congruence | discriminate]. }
  unfold Next. rewrite Hr, Hp, Hb, Hrun. simpl bind. cbv iota beta.
  rewrite Hnew. simpl bind. cbv iota beta.
  do 2 eexists. split; [reflexivity|].
  unfold held, Err, Schema. cbn [rdr record columns NumRows rowdest err schema].
  split; [reflexivity|]. cbn [columns NumRows]. split; [reflexivity|].
  split; [now rewrite length_map|].
  split.
  { intros j t Hj. unfold column. cbn [columns].
    rewrite <- Hty in Hj. rewrite nth_error_map in Hj.
    destruct (nth_error fbs j) as [fb|] eqn:Efb; [|discriminate Hj].
    simpl in Hj. injection Hj as <-.
    assert (Hds : Forall (fun d => length d = length fbs) ds).
    { destruct (dests_shapes tmpl (firstn m pend) (rowdest (rdr w))
                  (Forall_firstn _ m _ Hw) Ht) as (H1 & _).
      eapply Forall_impl; [|exact H1]. simpl. intros d Hd. rewrite Hd.
      destruct Ha as [Hc _].
      apply Forall2_length in Hc, Ht. congruence. }
    pose proof (fold_appendCells_nth ds fbs j fb Hds Efb) as Hn.
    fold fbsF in Hn.
    apply (map_nth_error cells) in Hn. cbn [cells] in Hn.
    rewrite (nth_error_nth _ _ _ Hn).
    destruct Ha as [_ Hl]. rewrite Forall_forall in Hl.
    apply nth_error_In in Efb. apply Hl in Efb.
    destruct (cells fb); [reflexivity | discriminate Efb]. }
  split.
  { exists (mkRows (ColumnTypes cur) (skipn m pend)), (reset fbsF).
    cbn [rdr rows bldr rowdest pending].
    split; [reflexivity|]. split; [reflexivity|]. split; [reflexivity|].
    split; [exact Hal0|]. split; [exact Ht'|]. split; [|exact Hne].
    unfold reset. rewrite map_map. cbn [btype].
    change (map (fun x => btype x) fbsF) with (map btype fbsF).
    unfold fbsF. now rewrite fold_appendCells_btype. }
  split; [reflexivity|]. split; reflexivity.
Qed.

Lemma maxBatchSize_pos : 0 < maxBatchSize.
Proof. unfold maxBatchSize. lia. Qed.

(** X12: batching loses nothing.  A consumer that calls [Next] until it
    returns false, on a reader poised over well-behaved rows, is done
    within as many calls as there are rows plus one; no error is
    recorded; the batches it saw have between 1 and 1024 rows each, all
    but the last have 1024, and together as many rows as the cursor
    had; and column by column they hold, concatenated in order, the cell
    of every row in the order of the cursor. *)
Theorem collect_all_rows :
  forall (fuel : nat) (types : list arrow.DataType) (tmpl : list (option RowDest))
         (pend : list Row) (w : World),
    poised types tmpl pend w ->
    Forall (wellBehaved tmpl) pend ->
    length pend < fuel ->
    exists recs w',
      collect fuel w = Ok (recs, w', true) /\
      poised types tmpl [] w' /\
      Err w' = Err w /\
      list_sum (map NumRows recs) = length pend /\
      Forall (fun rec => 0 < NumRows rec <= maxBatchSize) recs /\
      Forall (fun rec => NumRows rec = maxBatchSize) (removelast recs) /\
      (forall j t, nth_error types j = Some t ->
         concat (map (column j) recs)
         = cellsOfColumn t j (dests pend (rowdest (rdr w)))).
Proof.
  induction fuel as [|fuel IH]; intros types tmpl pend w Hp Hw Hf; [lia|].
  destruct (Next_poised types tmpl pend w _ Hp Hw eq_refl)
    as (w1 & rec & HN & Hheld & Hnum & _ & Hcol & Hp1 & Hd1 & He1 & _).
  pose proof maxBatchSize_pos as Hpos.
  cbn [collect]. rewrite HN. simpl bind. cbn [fst snd].
  destruct (Nat.min (length pend) maxBatchSize) as [|m'] eqn:Em.
  - assert (Hnil : pend = []) by (destruct pend; [reflexivity | simpl in Em; lia]).
    subst pend. simpl. exists [], w1.
    split; [reflexivity|]. split; [exact Hp1|]. split; [exact He1|].
    split; [reflexivity|]. split; [constructor|]. split; [constructor|].
    intros j t Hj. reflexivity.
  - set (m := S m') in *.
    change (0 <? m)%nat with true. cbv iota.
    assert (Hlen1 : length (skipn m pend) = length pend - m) by apply length_skipn.
    destruct (IH types tmpl (skipn m pend) w1 Hp1 (Forall_skipn _ m _ Hw)
                ltac:(lia))
      as (recs1 & w' & HC & Hp' & He' & Hsum & Hall & Hfull & Hcols).
    rewrite HC. simpl bind. cbn [fst snd]. rewrite Hheld.
    exists (rec :: recs1), w'.
    split; [reflexivity|]. split; [exact Hp'|].
    split; [congruence|].
    unfold list_sum in *.
    split; [cbn [map fold_right]; rewrite Hsum, Hnum; lia|].
    split; [constructor; [rewrite Hnum; lia | exact Hall]|].
    split.
    { destruct recs1 as [|rec1 recs1]; [constructor|].
      change (removelast (rec :: rec1 :: recs1))
        with (rec :: removelast (rec1 :: recs1)).
      constructor; [|exact Hfull].
      inversion Hall as [|? ? Hr1 _]; subst.
      cbn [map fold_right] in Hsum. rewrite Hnum. lia. }
    intros j t Hj. cbn [map concat].
    rewrite (Hcol j t Hj), (Hcols j t Hj), Hd1.
    unfold cellsOfColumn. rewrite <- map_app, <- dests_app.
    now rewrite firstn_skipn.
Qed.

Lemma NewDuckDBBatchReaderWithSchema_poised (s : arrow.Schema)
    (cols : error + list sql.ColumnType) (rs : list Row) :
  s <> [] ->
  forallb appendable s = true ->
  poised (map arrow.Typ s) (allocate s) rs
    (NewDuckDBBatchReaderWithSchema s (mkRows cols rs)).
Proof.
  intros Hne Happ.
  exists (mkRows cols rs), (NewRecordBuilder s). simpl.
  split; [reflexivity|]. split; [reflexivity|]. split; [reflexivity|].
  split; [now apply allocate_aligned|].
  split; [apply Forall2_sameShape_refl|]. split.
  - unfold NewRecordBuilder. now rewrite map_map.
  - destruct s; [congruence | discriminate].
Qed.

(** A failing row after [good] well-behaved ones, below the cap, in
    closed form. *)
Lemma scanLoop_fails_cells (tmpl : list (option RowDest)) (good : list Row)
    (bad : Row) (rest : list Row) (e : error) :
  forall n dest fbs L,
    Forall (wellBehaved tmpl) good ->
    Forall2 sameShape tmpl dest ->
    aligned L dest fbs ->
    n + length good < maxBatchSize ->
    (forall d, snd (bad d) = Some e) ->
    scanLoop (good ++ bad :: rest) n dest (Some fbs)
    = Ok (ScanFailed (n + length good) e,
          (rest, fst (bad (destAfter good dest)),
           Some (fold_left appendCells (dests good dest) fbs))) /\
    aligned (L + length good) (destAfter good dest)
      (fold_left appendCells (dests good dest) fbs).
Proof.
  induction good as [|row good IH]; intros n dest fbs L Hw Ht Ha Hn Hbad;
    rewrite scanLoop_unfold.
  - unfold destAfter. cbn [app length dests fold_left] in *.
    rewrite !Nat.add_0_r in *.
    apply Nat.ltb_lt in Hn. rewrite Hn, Hbad. split; [reflexivity | exact Ha].
  - simpl length in *.
    assert (E : (n <? maxBatchSize)%nat = true) by (apply Nat.ltb_lt; lia).
    rewrite E. cbn [app].
    inversion Hw as [|? ? Hrow Hgood]; subst.
    destruct (Hrow dest Ht) as [Hshape Hok].
    rewrite Hok.
    assert (Ht1 : Forall2 sameShape tmpl (fst (row dest)))
      by (eapply Forall2_sameShape_trans; eassumption).
    assert (Ha1 : aligned L (fst (row dest)) fbs)
      by (eapply aligned_sameShape; [apply Hshape | exact Ha]).
    destruct (appendRowTo_aligned float32_of_float64 L _ _ Ha1) as (fbs1 & Hrow1 & Ha2).
    assert (Hfbs1 : fbs1 = appendCells fbs (fst (row dest))).
    { pose proof (appendRow_appendCells _ [] fbs (proj1 Ha1)) as K.
      simpl in K. unfold appendRowTo in Hrow1. rewrite K in Hrow1.
      simpl in Hrow1. now injection Hrow1. }
    rewrite Hrow1. simpl bind. subst fbs1.
    destruct (IH (S n) (fst (row dest)) _ (S L) Hgood Ht1 Ha2 ltac:(lia) Hbad)
      as [Hrun Hal].
    rewrite Hrun. cbn [dests]. unfold destAfter in *. cbn [fold_left].
    split.
    + now replace (S n + length good) with (n + S (length good)) by lia.
    + now replace (L + S (length good)) with (S L + length good) by lia.
Qed.

(** One call of [Next] over well-behaved rows and aligned builders that
    already hold [L] rows, in closed form. *)
Lemma Next_aligned (tmpl : list (option RowDest)) (w : World) (cur : Rows)
    (fbs : RecordBuilder) (L m : nat) :
  rows (rdr w) = Some cur ->
  bldr (rdr w) = Some fbs ->
  fbs <> [] ->
  aligned L (rowdest (rdr w)) fbs ->
  Forall2 sameShape tmpl (rowdest (rdr w)) ->
  Forall (wellBehaved tmpl) (pending cur) ->
  m = Nat.min (length (pending cur)) maxBatchSize ->
  exists w',
    Next w = Ok ((0 <? m)%nat, w') /\
    Record' w'
    = Some (mkRecord
              (map cells
                 (fold_left appendCells
                    (dests (firstn m (pending cur)) (rowdest (rdr w))) fbs))
              (L + m)) /\
    Err w' = Err w.
Proof.
  intros Hr Hb Hne Ha Ht Hw Hm.
  assert (Hm' : m = Nat.min (length (pending cur)) (maxBatchSize - 0))
    by (now rewrite Nat.sub_0_r).
  pose proof (scanLoop_cells tmpl _ 0 (rowdest (rdr w)) fbs L m Hw Ht Ha Hm')
    as Hrun.
  destruct (scanLoop_wellBehaved float32_of_float64 tmpl _ 0 (rowdest (rdr w))
              fbs L m Hw Ht Ha Hm') as (dest' & fbs' & Hrun' & Ht' & Hal).
  rewrite Hrun in Hrun'. injection Hrun' as <- <-.
  rewrite !Nat.add_0_l in *.
  destruct (NewRecord_aligned (L + m) _ _ Hal) as (Hnew & _ & _).
  { intros HF. apply (f_equal (@length _)) in HF.
    rewrite fold_appendCells_length in HF. destruct fbs; [congruence | discriminate]. }
  unfold Next. rewrite Hr, Hb, Hrun. simpl bind. cbv iota beta.
  rewrite Hnew. simpl bind. cbv iota beta.
  eexists. split; [reflexivity|]. split; reflexivity.
Qed.

(** X13: after a failed scan the next call goes on behind the failing
    row.  When the scan of a row fails after [k] rows of the same call,
    the row is consumed; the next call of [Next] takes up to 1024 of
    the rows after it, returns true exactly when there is one, and
    exposes a batch of [k] rows more than it took, which in every column
    holds the cells of the rows before the failing one followed by the
    cells of the rows it took: a batch of up to 2047 rows. *)
Theorem Next_resumes_after_failure :
  forall (types : list arrow.DataType) (tmpl : list (option RowDest))
         (good : list Row) (bad : Row) (rest : list Row) (e : error)
         (w : World) (s : arrow.Schema) (m : nat),
    poised types tmpl (good ++ bad :: rest) w ->
    schema (rdr w) = Some s ->
    Forall (wellBehaved tmpl) good ->
    length good < maxBatchSize ->
    (forall d, snd (bad d) = Some e) ->
    (forall d, Forall2 sameShape tmpl d -> Forall2 sameShape d (fst (bad d))) ->
    Forall (wellBehaved tmpl) rest ->
    m = Nat.min (length rest) maxBatchSize ->
    exists w1 w2 rec,
      Next w = Ok (false, w1) /\
      Record' w1 = None /\
      Next w1 = Ok ((0 <? m)%nat, w2) /\
      Record' w2 = Some rec /\
      NumRows rec = length good + m /\
      Err w2 = Err w1 /\
      (forall j t, nth_error types j = Some t ->
         column j rec
         = cellsOfColumn t j (dests good (rowdest (rdr w)))
           ++ cellsOfColumn t j (dests (firstn m rest) (rowdest (rdr w1)))).
Proof.
  intros types tmpl good bad rest e w s m
         (cur & fbs & Hr & Hp & Hb & Ha & Ht & Hty & Hne) Es Hg Hk Hbad Hbs Hrest Hm.
  destruct (scanLoop_fails_cells tmpl good bad rest e 0 (rowdest (rdr w)) fbs 0
              Hg Ht Ha Hk Hbad) as [Hrun Hal].
  rewrite !Nat.add_0_l in *.
  destruct (dests_shapes tmpl good (rowdest (rdr w)) Hg Ht) as (Hds1 & HtA & _).
  set (ds1 := dests good (rowdest (rdr w))) in *.
  set (dA := destAfter good (rowdest (rdr w))) in *.
  set (fbsK := fold_left appendCells ds1 fbs) in *.
  assert (Hfne : fbs <> []).
  { intros ->. simpl in Hty. congruence. }
  assert (HtB : Forall2 sameShape tmpl (fst (bad dA)))
    by (eapply Forall2_sameShape_trans; [exact HtA | now apply Hbs]).
  assert (HalB : aligned (length good) (fst (bad dA)) fbsK)
    by (eapply aligned_sameShape; [apply Hbs; exact HtA | exact Hal]).
  assert (HlenT : length tmpl = length fbs).
  { destruct Ha as [Hc _]. apply Forall2_length in Hc, Ht. congruence. }
  eexists.
  assert (HN1 : Next w
                = Ok (false,
                      mkWorld
                        (mkReader (refCount (rdr w)) (Some s)
                           (Some (mkRows (ColumnTypes cur) rest)) None (Some fbsK)
                           (Some (scanError Schema_String anypb_New e s))
                           (fst (bad dA)))
                        (match record (rdr w) with
                         | Some rec => trace w ++ [RecordRelease rec]
                         | None => trace w
                         end))).
  { unfold Next. rewrite Hr, Hp, Hb, Hrun. simpl bind. cbv iota beta.
    rewrite Es. reflexivity. }
  destruct (Next_aligned tmpl
              (mkWorld
                 (mkReader (refCount (rdr w)) (Some s)
                    (Some (mkRows (ColumnTypes cur) rest)) None (Some fbsK)
                    (Some (scanError Schema_String anypb_New e s))
                    (fst (bad dA)))
                 (match record (rdr w) with
                  | Some rec => trace w ++ [RecordRelease rec]
                  | None => trace w
                  end))
              (mkRows (ColumnTypes cur) rest) fbsK (length good) m
              eq_refl eq_refl)
    as (w2 & HN2 & HR2 & HE2); try assumption.
  { intros HF. apply (f_equal (@length _)) in HF. unfold fbsK in HF.
    rewrite fold_appendCells_length in HF. destruct fbs; [congruence | discriminate]. }
  exists w2. eexists.
  split; [exact HN1|]. split; [reflexivity|].
  split; [exact HN2|]. split; [exact HR2|].
  cbn [NumRows]. split; [reflexivity|]. split; [exact HE2|].
  intros j t Hj. unfold column. cbn [columns rdr rowdest pending].
  set (ds2 := dests (firstn m rest) (fst (bad dA))).
  unfold fbsK. rewrite <- fold_left_app.
  rewrite <- Hty in Hj. rewrite nth_error_map in Hj.
  destruct (nth_error fbs j) as [fb|] eqn:Efb; [|discriminate Hj].
  simpl in Hj. injection Hj as <-.
  assert (Hds : Forall (fun d => length d = length fbs) (ds1 ++ ds2)).
  { apply Forall_app. split.
    - eapply Forall_impl; [|exact Hds1]. simpl. intros d Hd. congruence.
    - destruct (dests_shapes tmpl (firstn m rest) (fst (bad dA))
                  (Forall_firstn _ m _ Hrest) HtB) as (H1 & _).
      eapply Forall_impl; [|exact H1]. simpl. intros d Hd. congruence. }
  pose proof (fold_appendCells_nth (ds1 ++ ds2) fbs j fb Hds Efb) as Hn.
  apply (map_nth_error cells) in Hn. cbn [cells] in Hn.
  rewrite (nth_error_nth _ _ _ Hn).
  destruct Ha as [_ Hl]. rewrite Forall_forall in Hl.
  apply nth_error_In in Efb. apply Hl in Efb.
  destruct (cells fb); [|discriminate Efb].
  unfold cellsOfColumn. now rewrite map_app.
Qed.

Lemma noCase_sameShape (a b : option RowDest) :
  sameShape a b -> noCase a -> noCase b.
Proof.
  destruct a as [[]|], b as [[]|]; simpl; try tauto; try discriminate.
Qed.

Lemma Forall_noCase_sameShape (l l' : list (option RowDest)) :
  Forall2 sameShape l l' -> Forall noCase l -> Forall noCase l'.
Proof.
  induction 1 as [|a b l l' Hab Hl IH]; intros Hn;
    inversion Hn; subst; constructor;
    eauto using noCase_sameShape.
Qed.

Lemma appendValue_noCase (fb : FieldBuilder) (d : option RowDest) :
  noCase d -> appendValue fb d = Ok fb.
Proof. destruct d as [[]|]; simpl; tauto. Qed.

Lemma appendRow_noCase (dest : list (option RowDest)) :
  forall pre suf,
    Forall noCase dest ->
    length dest <= length suf ->
    appendRow (length pre) dest (pre ++ suf) = Ok (pre ++ suf).
Proof.
  induction dest as [|v dest IH]; intros pre suf Hn Hlen; [reflexivity|].
  inversion Hn as [|? ? Hv Hd]; subst.
  destruct suf as [|fb suf]; [simpl in Hlen; lia|].
  cbn [appendRow]. unfold Field. rewrite nth_error_middle. simpl.
  rewrite (appendValue_noCase fb v Hv). simpl.
  rewrite replaceAt_middle.
  replace (S (length pre)) with (length (pre ++ [fb]))
    by (rewrite length_app; simpl; lia).
  replace (pre ++ fb :: suf) with ((pre ++ [fb]) ++ suf)
    by (now rewrite <- app_assoc).
  apply IH; [exact Hd | simpl in Hlen; lia].
Qed.

Lemma scanLoop_noCase (tmpl : list (option RowDest)) (cur : list Row) :
  forall n dest (fbs : RecordBuilder) m,
    Forall noCase tmpl ->
    length tmpl <= length fbs ->
    Forall (wellBehaved tmpl) cur ->
    Forall2 sameShape tmpl dest ->
    m = Nat.min (length cur) (maxBatchSize - n) ->
    scanLoop cur n dest (Some fbs)
    = Ok (Drained (n + m), (skipn m cur, destAfter (firstn m cur) dest, Some fbs)).
Proof.
  induction cur as [|row cur IH]; intros n dest fbs m Hno Hlen Hw Ht Hm;
    rewrite scanLoop_unfold;
    destruct (n <? maxBatchSize)%nat eqn:E.
  - simpl in Hm. subst m. now rewrite !Nat.add_0_r.
  - simpl in Hm. subst m. now rewrite !Nat.add_0_r.
  - apply Nat.ltb_lt in E.
    inversion Hw as [|? ? Hrow Hcur]; subst.
    destruct (Hrow dest Ht) as [Hshape Hok].
    rewrite Hok.
    assert (Ht1 : Forall2 sameShape tmpl (fst (row dest)))
      by (eapply Forall2_sameShape_trans; eassumption).
    assert (Hrow1 : appendRowTo (fst (row dest)) (Some fbs) = Ok (Some fbs)).
    { unfold appendRowTo.
      pose proof (appendRow_noCase (fst (row dest)) [] fbs) as K. simpl in K.
      rewrite K; [reflexivity| |].
      - eapply Forall_noCase_sameShape; eassumption.
      - apply Forall2_length in Ht1. lia. }
    rewrite Hrow1. simpl bind.
    rewrite (IH (S n) (fst (row dest)) fbs
               (Nat.min (length cur) (maxBatchSize - S n)) Hno Hlen Hcur Ht1 eq_refl).
    replace (Nat.min (length (row :: cur)) (maxBatchSize - n))
      with (S (Nat.min (length cur) (maxBatchSize - S n)))
      by (simpl length; lia).
    cbn [skipn firstn]. unfold destAfter. cbn [fold_left].
    now replace (n + S (Nat.min (length cur) (maxBatchSize - S n)))
      with (S n + Nat.min (length cur) (maxBatchSize - S n)) by lia.
  - apply Nat.ltb_ge in E.
    replace m with 0 by lia. now rewrite !Nat.add_0_r.
Qed.

(** X14: the rows of union columns are dropped.  The type switch of
    [Next] has no case for the capture slot of a union field.  On a fresh
    reader whose fields are all of a union type, over rows that scan
    without error, [Next] takes up to 1024 rows from the cursor and
    returns true when it took one, but the batch it exposes has no rows:
    every column is empty. *)
Theorem union_rows_are_dropped :
  forall (s : arrow.Schema) (cols : error + list sql.ColumnType) (rs : list Row)
         (m : nat),
    forallb unionField s = true ->
    Forall (wellBehaved (allocate s)) rs ->
    m = Nat.min (length rs) maxBatchSize ->
    exists w' cur',
      Next (NewDuckDBBatchReaderWithSchema s (mkRows cols rs))
      = Ok ((0 <? m)%nat, w') /\
      Record' w' = Some (mkRecord (map (fun _ => []) s) 0) /\
      rows (rdr w') = Some cur' /\ pending cur' = skipn m rs /\
      Err w' = None.
Proof.
  intros s cols rs m Hu Hw Hm.
  assert (Hno : Forall noCase (allocate s)).
  { unfold allocate. apply Forall_map. apply Forall_forall. intros f Hf.
    rewrite forallb_forall in Hu. specialize (Hu f Hf).
    unfold unionField in Hu.
    destruct (arrow.ID (arrow.Typ f)); try discriminate Hu; exact I. }
  assert (Hlen : length (allocate s) <= length (NewRecordBuilder s)).
  { unfold allocate, NewRecordBuilder. rewrite !length_map. lia. }
  assert (Hm' : m = Nat.min (length rs) (maxBatchSize - 0))
    by (now rewrite Nat.sub_0_r).
  pose proof (scanLoop_noCase (allocate s) rs 0 (allocate s) (NewRecordBuilder s) m
                Hno Hlen Hw (Forall2_sameShape_refl _) Hm') as Hrun.
  rewrite Nat.add_0_l in Hrun.
  destruct (NewRecordBuilder_checkRows s) as (C1 & _ & M1 & _).
  unfold Next, NewDuckDBBatchReaderWithSchema, NewRecord.
  cbn [rdr rows record pending rowdest bldr trace schema err refCount ColumnTypes].
  do 2 eexists.
  rewrite Hrun. simpl bind. cbv iota beta.
  rewrite C1. simpl bind. cbv iota beta. rewrite M1.
  split; [reflexivity|].
  unfold Record', Err. cbn [rdr record rows err pending].
  repeat split.
Qed.

Lemma appendValue_byte_panics (fb : FieldBuilder) (d : option RowDest) :
  holdsByte d = true ->
  arrow.ID (btype fb) <> arrow.UINT8 ->
  exists msg, appendValue fb d = Panic msg.
Proof.
  intros Hd Hid.
  assert (E : arrow.TypeID_beq (arrow.ID (btype fb)) arrow.UINT8 = false).
  { destruct (arrow.TypeID_beq (arrow.ID (btype fb)) arrow.UINT8) eqn:E;
      [|reflexivity].
    apply arrow.internal_TypeID_dec_bl in E. contradiction. }
  destruct d as [[]|]; try discriminate Hd; simpl in *;
    unfold assertBuilder; rewrite ?Hd, E; simpl; eauto.
Qed.

(** X15: with an inferred schema, a value in an 8-bit column makes [Next]
    panic.  [getArrowType] never yields uint8, so no builder of a reader
    from [NewDuckDBBatchReader] is a uint8 builder; when the scan of the
    first pending row succeeds and leaves a byte to append in some
    destination (a [uint8] slot, or a [sql.NullByte] that is valid),
    [Next] panics. *)
Theorem inferred_byte_value_panics :
  forall (md : string -> arrow.Metadata) (cur : Rows) (w : World)
         (row : Row) (rest : list Row) (dest' : list (option RowDest))
         (j : nat) (d : option RowDest),
    NewDuckDBBatchReader md cur = Ok (Constructed w) ->
    pending cur = row :: rest ->
    row (rowdest (rdr w)) = (dest', None) ->
    nth_error dest' j = Some d ->
    holdsByte d = true ->
    exists msg, Next w = Panic msg.
Proof.
  intros md cur w row rest dest' j d HN Hp Hrow Hj Hd.
  unfold NewDuckDBBatchReader in HN.
  destruct (ColumnTypes cur) as [e0|cols] eqn:Ec; [discriminate HN|].
  destruct (columnFields md 0 cols) as [fs|m0] eqn:E; [|discriminate HN].
  simpl in HN. injection HN as <-.
  destruct (columnFields_nth md cols 0 fs E) as [Hlen Hnth].
  assert (Hb : forall i fb, nth_error (NewRecordBuilder fs) i = Some fb ->
                 arrow.ID (btype fb) <> arrow.UINT8).
  { intros i fb Hi. unfold NewRecordBuilder in Hi. rewrite nth_error_map in Hi.
    destruct (nth_error fs i) as [f|] eqn:Ef; [|discriminate Hi].
    simpl in Hi. injection Hi as <-. cbn [btype].
    assert (Hi' : i < length cols).
    { rewrite <- Hlen. apply nth_error_Some. congruence. }
    destruct (nth_error cols i) as [c|] eqn:Eci;
      [|apply nth_error_None in Eci; lia].
    destruct (Hnth i c Eci) as (f' & Hf' & Ht & _).
    simpl in Hf'. rewrite Ef in Hf'. injection Hf' as <-.
    destruct (getArrowType_canonical c _ Ht) as (Hin & _).
    now destruct (canonical_not_uint8 _ Hin) as (H8 & _). }
  assert (Hpanic : exists msg, appendRow 0 dest' (NewRecordBuilder fs) = Panic msg).
  { destruct (appendRow 0 dest' (NewRecordBuilder fs)) as [b'|m1] eqn:Ea; [|eauto].
    exfalso.
    destruct (appendRow_pointwise dest' [] _ b' Ea) as (suf' & _ & _ & _ & Hin & _).
    destruct (Hin j d Hj) as (fb & fb' & Hfb & Hok & _).
    destruct (appendValue_byte_panics fb d Hd (Hb j fb Hfb)) as [msg Hmsg].
    congruence. }
  destruct Hpanic as [msg Hmsg].
  exists msg. unfold Next.
  cbn [rdr rows record pending rowdest bldr trace schema err refCount].
  rewrite Hp, scanLoop_unfold.
  change (0 <? maxBatchSize)%nat with true. cbv iota.
  cbn [rdr rowdest] in Hrow. rewrite Hrow. cbn [fst snd].
  unfold appendRowTo. rewrite Hmsg. reflexivity.
Qed.

Lemma Forall2_nth_error_left {A B : Type} (R : A -> B -> Prop) (l : list A)
    (l' : list B) :
  Forall2 R l l' ->
  forall i a, nth_error l i = Some a ->
              exists b, nth_error l' i = Some b /\ R a b.
Proof.
  induction 1 as [|x y l l' Hxy Hl IH]; intros [|i] a Hi; try discriminate Hi.
  - injection Hi as <-. exists y. split; [reflexivity | exact Hxy].
  - simpl in Hi. simpl. now apply IH.
Qed.

Lemma checkRows_Ok_uniform (b : RecordBuilder) :
  forall i r n,
    0 < i ->
    checkRows i r b = Ok n ->
    r = n /\ Forall (fun fb => length (cells fb) = n) b.
Proof.
  induction b as [|fb b IH]; intros i r n Hi H; simpl in H.
  - injection H as <-. split; [reflexivity | constructor].
  - destruct i as [|i]; [lia|]. cbn [Nat.ltb Nat.leb andb] in H.
    destruct (length (cells fb) =? r)%nat eqn:E; [|discriminate H].
    apply Nat.eqb_eq in E. simpl in H.
    destruct (IH (S (S i)) _ n ltac:(lia) H) as [Hn Hall].
    split; [congruence|]. constructor; [exact Hn | exact Hall].
Qed.

(** The columns after a run of the loop that returns: a column without a
    case in the type switch is as it was, a column whose destination fits
    its builder has one more cell for every row. *)
Lemma scanLoop_columns (tmpl : list (option RowDest)) (cur : list Row) :
  forall n dest (fbs : RecordBuilder) exit rest dest' b',
    Forall (wellBehaved tmpl) cur ->
    Forall2 sameShape tmpl dest ->
    scanLoop cur n dest (Some fbs) = Ok (exit, (rest, dest', b')) ->
    exists fbs',
      b' = Some fbs' /\
      exit = Drained (n + Nat.min (length cur) (maxBatchSize - n)) /\
      (forall i d fb,
         nth_error tmpl i = Some d -> nth_error fbs i = Some fb ->
         exists fb',
           nth_error fbs' i = Some fb' /\ btype fb' = btype fb /\
           (noCase d -> cells fb' = cells fb) /\
           (compatible d fb = true ->
            length (cells fb')
            = length (cells fb) + Nat.min (length cur) (maxBatchSize - n))).
Proof.
  induction cur as [|row cur IH]; intros n dest fbs exit rest dest' b' Hw Ht H;
    rewrite scanLoop_unfold in H;
    destruct (n <? maxBatchSize)%nat eqn:E.
  - injection H as <- <- <- <-. exists fbs. simpl. rewrite !Nat.add_0_r.
    split; [reflexivity|]. split; [reflexivity|]. intros i d fb _ Hfb.
    exists fb. repeat split; auto.
  - injection H as <- <- <- <-. exists fbs. simpl. rewrite !Nat.add_0_r.
    split; [reflexivity|]. split; [reflexivity|]. intros i d fb _ Hfb.
    exists fb. repeat split; auto.
  - apply Nat.ltb_lt in E.
    inversion Hw as [|? ? Hrow Hcur]; subst.
    destruct (Hrow dest Ht) as [Hshape Hok]. rewrite Hok in H.
    assert (Ht1 : Forall2 sameShape tmpl (fst (row dest)))
      by (eapply Forall2_sameShape_trans; eassumption).
    unfold appendRowTo in H.
    destruct (appendRow 0 (fst (row dest)) fbs) as [fbs1|m1] eqn:Ea;
      [|discriminate H].
    simpl bind in H.
    destruct (appendRow_pointwise (fst (row dest)) [] fbs fbs1 Ea)
      as (suf' & Hs & _ & _ & Hin & _).
    simpl in Hs. subst suf'.
    destruct (IH (S n) (fst (row dest)) fbs1 exit rest dest' b' Hcur Ht1 H)
      as (fbs' & Hb & He & Hcol).
    exists fbs'.
    replace (Nat.min (length (row :: cur)) (maxBatchSize - n))
      with (S (Nat.min (length cur) (maxBatchSize - S n)))
      by (simpl length; lia).
    split; [exact Hb|]. split; [rewrite He; f_equal; lia|].
    intros i d fb Hd Hfb.
    destruct (Forall2_nth_error_left _ _ _ Ht1 i d Hd) as (v & Hv & Hdv).
    destruct (Hin i v Hv) as (fb0 & fb1 & Hfb0 & Happ & Hfb1).
    simpl in Hfb0. rewrite Hfb in Hfb0. injection Hfb0 as <-.
    destruct (appendValue_extends float32_of_float64 fb fb1 v Happ) as [Hbt _].
    destruct (Hcol i d fb1 Hd Hfb1) as (fb' & Hfb' & Hbt' & Hno & Hco).
    exists fb'. split; [exact Hfb'|]. split; [congruence|]. split.
    + intros Hn. rewrite (Hno Hn).
      rewrite (appendValue_noCase fb v (noCase_sameShape d v Hdv Hn)) in Happ.
      now injection Happ as <-.
    + intros Hc.
      assert (Hcv : compatible v fb = true)
        by (eapply compatible_sameShape; eassumption).
      destruct (appendValue_compatible float32_of_float64 fb v Hcv) as [c Hc1].
      rewrite Hc1 in Happ. injection Happ as <-.
      rewrite (Hco (compatible_btype d fb (append fb c) eq_refl Hc)).
      unfold append. cbn [cells]. rewrite length_app. simpl. lia.
  - apply Nat.ltb_ge in E.
    injection H as <- <- <- <-. exists fbs.
    replace (Nat.min (length (row :: cur)) (maxBatchSize - n)) with 0 by lia.
    rewrite !Nat.add_0_r.
    split; [reflexivity|]. split; [reflexivity|]. intros i d fb _ Hfb.
    exists fb. repeat split; auto.
Qed.

(** X16: a union column beside a column of values.  On a fresh reader
    whose schema has a field of a union type and a field of a type that
    [Next] appends (uint8, int32, int64, float32, float64, binary or
    string), over a cursor with at least one row, all of whose scans
    succeed: [Next] panics.  No batch can be made, since the column of
    values has a cell for every row and the union column has none. *)
Theorem union_beside_values_panics :
  forall (s : arrow.Schema) (cols : error + list sql.ColumnType) (rs : list Row)
         (i j : nat) (fi fj : arrow.Field),
    nth_error s i = Some fi -> unionField fi = true ->
    nth_error s j = Some fj -> appendable fj = true ->
    rs <> [] ->
    Forall (wellBehaved (allocate s)) rs ->
    exists msg,
      Next (NewDuckDBBatchReaderWithSchema s (mkRows cols rs)) = Panic msg.
Proof.
  intros s cols rs i j fi fj Hi Hui Hj Haj Hne Hw.
  destruct (Next (NewDuckDBBatchReaderWithSchema s (mkRows cols rs)))
    as [[v w']|msg] eqn:HN; [exfalso | eauto].
  unfold Next, NewDuckDBBatchReaderWithSchema in HN.
  cbn [rdr rows record pending rowdest bldr trace schema err refCount ColumnTypes]
    in HN.
  destruct (scanLoop rs 0 (allocate s) (Some (NewRecordBuilder s)))
    as [[exit [[rest dest'] b']]|m0] eqn:Hrun; [|discriminate HN].
  destruct (scanLoop_columns (allocate s) rs 0 (allocate s) (NewRecordBuilder s)
              exit rest dest' b' Hw (Forall2_sameShape_refl _) Hrun)
    as (fbs' & -> & -> & Hcol).
  simpl bind in HN. cbv iota beta in HN.
  unfold NewRecord in HN.
  destruct (checkRows 0 0 fbs') as [n|m1] eqn:Hc; [|discriminate HN].
  assert (Hall : Forall (fun fb => length (cells fb) = n) fbs').
  { destruct fbs' as [|fb0 fbs0]; [constructor|].
    cbn [checkRows Nat.ltb Nat.leb andb] in Hc.
    destruct (checkRows_Ok_uniform fbs0 1 _ n ltac:(lia) Hc) as [H0 Hrest].
    constructor; [exact H0 | exact Hrest]. }
  rewrite Forall_forall in Hall.
  assert (Hm : 0 < Nat.min (length rs) (maxBatchSize - 0)).
  { destruct rs; [congruence|]. unfold maxBatchSize. simpl length. lia. }
  assert (Hdi : nth_error (allocate s) i = Some (Some (PAny AnyNil))).
  { unfold allocate. rewrite (map_nth_error _ _ _ Hi).
    unfold unionField in Hui.
    destruct (arrow.ID (arrow.Typ fi)); try discriminate Hui; reflexivity. }
  assert (Hbi : nth_error (NewRecordBuilder s) i
                = Some (mkFieldBuilder (arrow.Typ fi) [])).
  { unfold NewRecordBuilder. now rewrite (map_nth_error _ _ _ Hi). }
  assert (Hbj : nth_error (NewRecordBuilder s) j
                = Some (mkFieldBuilder (arrow.Typ fj) [])).
  { unfold NewRecordBuilder. now rewrite (map_nth_error _ _ _ Hj). }
  destruct (Hcol i _ _ Hdi Hbi) as (fbi & Hfi & _ & Hno & _).
  specialize (Hno I). cbn [cells] in Hno.
  assert (Hdj : exists d, nth_error (allocate s) j = Some d /\
                          compatible d (mkFieldBuilder (arrow.Typ fj) []) = true).
  { unfold allocate. rewrite (map_nth_error _ _ _ Hj).
    eexists. split; [reflexivity|].
    unfold appendable in Haj. unfold compatible, newRowDest. cbn [btype].
    destruct (arrow.ID (arrow.Typ fj)); try discriminate Haj;
      destruct (arrow.Nullable fj); reflexivity. }
  destruct Hdj as (dj & Hdj & Hcj).
  destruct (Hcol j _ _ Hdj Hbj) as (fbj & Hfj & _ & _ & Hco).
  specialize (Hco Hcj). cbn [cells length] in Hco.
  pose proof (Hall fbi (nth_error_In _ _ Hfi)) as Li.
  pose proof (Hall fbj (nth_error_In _ _ Hfj)) as Lj.
  rewrite Hno in Li. simpl in Li. lia.
Qed.

End Batches.

(** * The further properties on sample readers *)

Lemma anyRow_wellBehaved (v : AnyValue) :
  wellBehaved (allocate unionSchema) (anyRow v).
Proof.
  intros dest H. simpl in H.
  inversion H as [|a b la lb Hab Hl]; subst.
  inversion Hl; subst.
  destruct b as [[]|]; simpl in Hab; try discriminate Hab; try contradiction.
  split; [|reflexivity].
  simpl. constructor; [reflexivity | constructor].
Qed.

Lemma row2_wellBehaved (n : Z) (v : AnyValue) :
  wellBehaved
    (allocate [arrow.mkField "n" arrow.Int32 true [];
               arrow.mkField "v" duckDBDenseUnion true []])
    (row2 n v).
Proof.
  intros dest H. simpl in H.
  inversion H as [|a b la lb Hab Hl]; subst.
  inversion Hl as [|a' b' la' lb' Hab' Hl']; subst.
  inversion Hl'; subst.
  destruct b as [[]|]; simpl in Hab; try discriminate Hab; try contradiction.
  destruct b' as [[]|]; simpl in Hab'; try discriminate Hab'; try contradiction.
  split; [|reflexivity].
  simpl. repeat constructor.
Qed.

Lemma Next_result_meaning_witness :
  exists w',
    Sample.Next (Sample.int32Reader [Sample.intRow 7]) = Ok (true, w') /\
    Record' w' <> None /\ Err w' = None.
Proof.
  eexists. split; [reflexivity|].
  refine (proj1 (Next_result_meaning Sample.Schema_String Sample.anypb_New
                   Sample.float32_of_float64
                   (Sample.int32Reader [Sample.intRow 7]) _ true eq_refl eq_refl)
            eq_refl).
Defined.

Lemma records_released_once_witness :
  exists w',
    run Sample.Schema_String Sample.anypb_New Sample.float32_of_float64
      [CallNext; CallNext; CallRelease] (Sample.int32Reader [Sample.intRow 7])
    = Ok w' /\
    released (trace w') ++ held w'
    = created Sample.Schema_String Sample.anypb_New Sample.float32_of_float64
        [CallNext; CallNext; CallRelease] (Sample.int32Reader [Sample.intRow 7]) /\
    map NumRows (released (trace w')) = [1; 0] /\
    held w' = [].
Proof.
  eexists. split; [reflexivity|]. split; [|split; reflexivity].
  exact (records_released_once Sample.Schema_String Sample.anypb_New
           Sample.float32_of_float64 [CallNext; CallNext; CallRelease]
           (Sample.int32Reader [Sample.intRow 7]) _ eq_refl).
Defined.

Lemma run_consistent_witness :
  exists w',
    run Sample.Schema_String Sample.anypb_New Sample.float32_of_float64
      [CallRetain; CallNext; CallRelease; CallRelease]
      (Sample.int32Reader [Sample.intRow 7])
    = Ok w' /\
    consistent w'.
Proof.
  eexists. split; [reflexivity|].
  refine (proj1 (run_consistent Sample.Schema_String Sample.anypb_New
                   Sample.float32_of_float64
                   [CallRetain; CallNext; CallRelease; CallRelease]
                   (Sample.int32Reader [Sample.intRow 7]) _ _ eq_refl)).
  left. unfold live. simpl. repeat split; discriminate.
Defined.

Lemma use_after_teardown_witness :
  exists w',
    Release (Sample.int32Reader []) = Ok w' /\
    Sample.Next w' = Panic "nil pointer dereference".
Proof.
  eexists. split; [reflexivity|].
  refine (proj1 (use_after_teardown Sample.Schema_String Sample.anypb_New
                   Sample.float32_of_float64 (Sample.int32Reader []) _ _
                   eq_refl eq_refl)).
  unfold live. simpl. repeat split; discriminate.
Defined.

Lemma releases_retains_roundtrip_witness :
  releases 3 (retains 3 (Sample.int32Reader [])) = Ok (Sample.int32Reader []).
Proof.
  apply releases_retains_roundtrip; reflexivity.
Defined.

Lemma appendRow_positional_witness :
  exists b',
    appendRow Sample.float32_of_float64 0 [Some (PNullInt32 (mkNull 7%Z true))]
      (NewRecordBuilder Sample.int32Schema)
    = Ok b' /\
    length b' = 1.
Proof.
  eexists. split; [reflexivity|].
  exact (proj1 (proj2 (appendRow_positional Sample.float32_of_float64
                         [Some (PNullInt32 (mkNull 7%Z true))]
                         (NewRecordBuilder Sample.int32Schema) _ eq_refl))).
Defined.

Lemma collect_all_rows_witness :
  exists recs w',
    collect Sample.Schema_String Sample.anypb_New Sample.float32_of_float64 4
      (Sample.int32Reader [Sample.intRow 1; Sample.intRow 2; Sample.intRow 3])
    = Ok (recs, w', true) /\
    concat (map (column 0) recs) = [CInt32 1; CInt32 2; CInt32 3].
Proof.
  destruct (collect_all_rows Sample.Schema_String Sample.anypb_New
              Sample.float32_of_float64 4
              (map arrow.Typ Sample.int32Schema) (allocate Sample.int32Schema)
              [Sample.intRow 1; Sample.intRow 2; Sample.intRow 3]
              (Sample.int32Reader [Sample.intRow 1; Sample.intRow 2; Sample.intRow 3]))
    as (recs & w' & Hc & _ & _ & _ & _ & _ & Hcol).
  - unfold Sample.int32Reader, Sample.cursor.
    apply NewDuckDBBatchReaderWithSchema_poised; [discriminate | reflexivity].
  - repeat (apply Forall_cons; [apply intRow_wellBehaved|]); apply Forall_nil.
  - simpl. lia.
  - exists recs, w'. split; [exact Hc|].
    rewrite (Hcol 0 arrow.Int32 eq_refl). reflexivity.
Defined.

Lemma Next_resumes_after_failure_witness :
  exists w1 w2 rec,
    Sample.Next (Sample.int32Reader
                   [Sample.intRow 7; Sample.failsWith "boom"; Sample.intRow 9])
    = Ok (false, w1) /\
    Sample.Next w1 = Ok (true, w2) /\
    Record' w2 = Some rec /\
    NumRows rec = 2.
Proof.
  destruct (Next_resumes_after_failure Sample.Schema_String Sample.anypb_New
              Sample.float32_of_float64
              (map arrow.Typ Sample.int32Schema) (allocate Sample.int32Schema)
              [Sample.intRow 7] (Sample.failsWith "boom") [Sample.intRow 9]
              (driverError "boom")
              (Sample.int32Reader
                 [Sample.intRow 7; Sample.failsWith "boom"; Sample.intRow 9])
              Sample.int32Schema 1)
    as (w1 & w2 & rec & H1 & _ & H2 & H3 & H4 & _).
  - unfold Sample.int32Reader, Sample.cursor.
    apply (NewDuckDBBatchReaderWithSchema_poised Sample.int32Schema (inr [])
             [Sample.intRow 7; Sample.failsWith "boom"; Sample.intRow 9]);
      [discriminate | reflexivity].
  - reflexivity.
  - repeat (apply Forall_cons; [apply intRow_wellBehaved|]); apply Forall_nil.
  - unfold maxBatchSize. simpl. lia.
  - intros d. reflexivity.
  - intros d _. apply Forall2_sameShape_refl.
  - repeat (apply Forall_cons; [apply intRow_wellBehaved|]); apply Forall_nil.
  - reflexivity.
  - exists w1, w2, rec.
    split; [exact H1|]. split; [exact H2|]. split; [exact H3 | exact H4].
Defined.

Lemma union_rows_are_dropped_witness :
  exists w',
    Sample.Next (NewDuckDBBatchReaderWithSchema unionSchema
                   (Sample.cursor [] [anyRow (AnyInt64 5); anyRow (AnyString "a")]))
    = Ok (true, w') /\
    Record' w' = Some (mkRecord [[]] 0).
Proof.
  destruct (union_rows_are_dropped Sample.Schema_String Sample.anypb_New
              Sample.float32_of_float64 unionSchema (inr [])
              [anyRow (AnyInt64 5); anyRow (AnyString "a")] 2)
    as (w' & cur' & HN & HR & _).
  - reflexivity.
  - repeat (apply Forall_cons; [apply anyRow_wellBehaved|]); apply Forall_nil.
  - reflexivity.
  - exists w'. split; [exact HN | exact HR].
Defined.

Lemma inferred_byte_value_panics_witness :
  exists w msg,
    NewDuckDBBatchReader Sample.getColumnMetadata
      (Sample.cursor [sql.mkColumnType "flag" "tinyint" (false, true) None]
         [Sample.intRow 5])
    = Ok (Constructed w) /\
    Sample.Next w = Panic msg.
Proof.
  eexists.
  destruct (inferred_byte_value_panics Sample.Schema_String Sample.anypb_New
              Sample.float32_of_float64 Sample.getColumnMetadata
              (Sample.cursor [sql.mkColumnType "flag" "tinyint" (false, true) None]
                 [Sample.intRow 5])
              _ (Sample.intRow 5) [] [Some (PUint8 5%Z)] 0 (Some (PUint8 5%Z))
              eq_refl eq_refl eq_refl eq_refl eq_refl)
    as [msg H].
  exists msg. split; [reflexivity | exact H].
Defined.

Lemma union_beside_values_panics_witness :
  exists msg,
    Sample.Next
      (NewDuckDBBatchReaderWithSchema
         [arrow.mkField "n" arrow.Int32 true []; arrow.mkField "v" duckDBDenseUnion true []]
         (Sample.cursor [] [row2 7 (AnyString "a")]))
    = Panic msg.
Proof.
  apply (union_beside_values_panics Sample.Schema_String Sample.anypb_New
           Sample.float32_of_float64
           [arrow.mkField "n" arrow.Int32 true []; arrow.mkField "v" duckDBDenseUnion true []]
           (inr []) [row2 7 (AnyString "a")] 1 0
           (arrow.mkField "v" duckDBDenseUnion true [])
           (arrow.mkField "n" arrow.Int32 true [])); try reflexivity.
  - discriminate.
  - apply Forall_cons; [apply row2_wellBehaved | apply Forall_nil].
Defined.

Lemma schema_constant_witness :
  exists w',
    run Sample.Schema_String Sample.anypb_New Sample.float32_of_float64
      [CallNext; CallRetain; CallNext; CallRelease]
      (Sample.int32Reader [Sample.intRow 7])
    = Ok w' /\
    (serves Sample.int32Schema w' \/ tornDown w').
Proof.
  eexists. split; [reflexivity|].
  exact (schema_constant Sample.Schema_String Sample.anypb_New
           Sample.float32_of_float64 Sample.int32Schema
           (Sample.cursor [] [Sample.intRow 7])
           [CallNext; CallRetain; CallNext; CallRelease] _ eq_refl).
Defined.


